(** * Verification of [demo/yuanjian.py]: the batch driver and its ledger

    The script drives an external document-analysis pipeline over the PDF
    files of a directory and records the names of the files it finished in
    [processed_files.json], so that a later run skips them.

    The embedding is shallow.  Python values are Rocq values:
    - a [str] is a [string]: the bytes of its UTF-8 encoding, on which
      byte-wise lexicographic order is the code-point order [sorted] uses;
    - a [pathlib.Path] is the list of its components, and [os.path.join]
      appends components;
    - a [set] of names is a [gset string];
    - statements that touch the outside world (the file system, the ledger
      file, standard output, the process pool) are computations of the
      monad [M], which threads a [world] and may raise a Python exception.
      A computation that raises keeps the effects it had before.

    What the model leaves out:
    - exceptions are the instances of [Exception], the class the worker
      catches; [KeyboardInterrupt] and [SystemExit] are not modelled;
    - a path names an entry by its components as they are written: the
      components [.] and [..] and links are not resolved, so that two
      paths that differ name two entries;
    - the ledger file is a cell of its own: the path
      [processed_files.json] of the working directory is taken to lie
      outside the directories a run reads and writes;
    - the workers of the pool run one after the other, in the order in
      which the pool yields their results, which is any rearrangement of
      the submission order. *)

From Stdlib Require Import ZArith Ascii.
From Stdlib Require String.
From stdpp Require Import gmap strings list sorting.

Local Open Scope Z_scope.

(** ** Python values *)

Abbreviation path := (list string).
Abbreviation bytes := string.

(** Instances of Python's [Exception] class that the modelled calls raise.
    [except Exception] binds a value of this type.  [PipelineError] stands
    for whatever the analysis library raises on a document. *)
Inductive exn : Type :=
| FileExistsError (p : path)
| FileNotFoundError (p : path)
| NotADirectoryError (p : path)
| IsADirectoryError (p : path)
| SameFileError (p : path)
| PermissionError (p : path)
| JSONDecodeError (msg : string)
| TypeError (msg : string)
| ValueError (msg : string)
| PipelineError (msg : string).

(** Lines written to standard output. *)
Inductive line : Type :=
| FoundLine (total done todo : nat)
    (* 共找到 PDF 文件 {total} 个，其中已处理 {done} 个，待处理 {todo} 个 *)
| FailedLine (name : string) (e : exn)
    (* [✗] 处理失败：{name}，错误信息：{e} *)
| DoneLine (added : nat).
    (* 全部处理完成，新增成功 {added} 个 *)

(** ** The file system *)

Inductive node : Type :=
| Dir
| File (data : bytes).

(** What lies at [PROCESSED_LOG_PATH].  The ledger file is only ever
    written by [save_processed_files], as a JSON array of strings; the
    text layer (indentation, escapes, UTF-8) belongs to the [json] module
    and the file is represented by the document it holds.  A document
    that [set] accepts without being an array of strings (an object, a
    string, an array of numbers) is outside the model. *)
Inductive ledger_file : Type :=
| NoFile                      (* nothing at the path *)
| Inaccessible (e : exn)      (* the path exists, [open] raises [e] *)
| Corrupt (e : exn)           (* [set(json.load(f))] raises [e] *)
| Array (names : list string). (* a JSON array of strings *)

Abbreviation task := (path * path)%type.

(** What a run does that an observer can see, in the order it happens. *)
Inductive event : Type :=
| Print (x : line)                         (* a line on standard output *)
| Complete (t : task) (r : option string)  (* the pool yields the result of [t] *)
| Save (names : list string).              (* the ledger file is rewritten *)

Record world : Type := World {
  fs : gmap path node;    (* directories and files, by absolute path *)
  ledger : ledger_file;   (* the file at PROCESSED_LOG_PATH *)
  trace : list event      (* the events so far, oldest first *)
}.

Definition set_fs (f : gmap path node) (w : world) : world :=
  World f (ledger w) (trace w).
Definition set_ledger (l : ledger_file) (w : world) : world :=
  World (fs w) l (trace w).
Definition emit (x : event) (w : world) : world :=
  World (fs w) (ledger w) (trace w ++ [x]).

(** The printed lines, the pool's results and the ledger writes of a trace. *)
Definition stdout (tr : list event) : list line :=
  omap (fun x => match x with Print l => Some l | _ => None end) tr.
Definition pool_log (tr : list event) : list (task * option string) :=
  omap (fun x => match x with Complete t r => Some (t, r) | _ => None end) tr.
Definition saves (tr : list event) : list (list string) :=
  omap (fun x => match x with Save l => Some l | _ => None end) tr.

(** [if result:] is Python truthiness: [None] and [''] are false. *)
Definition truthy (r : option string) : option string :=
  match r with
  | Some s => if String.eqb s "" then None else Some s
  | None => None
  end.

(** The success tokens the runner accepted, and the tasks whose worker
    returned the failure marker, in completion order. *)
Definition successes (tr : list event) : list string :=
  omap (fun x => truthy (snd x)) (pool_log tr).
Definition failures (tr : list event) : list task :=
  omap (fun x => match snd x with None => Some (fst x) | Some _ => None end)
    (pool_log tr).

(** The set of names a ledger file holds ([∅] when it cannot be loaded). *)
Definition ledger_set (l : ledger_file) : gset string :=
  match l with
  | Array names => list_to_set names
  | _ => ∅
  end.

(** ** The monad of effectful statements *)

Inductive result (A : Type) : Type :=
| Ok (a : A)
| Raise (e : exn).
Arguments Ok {A} a.
Arguments Raise {A} e.

Definition M (A : Type) : Type := world -> result A * world.

Definition ret {A} (a : A) : M A := fun w => (Ok a, w).
Definition raise {A} (e : exn) : M A := fun w => (Raise e, w).
Definition bind {A B} (m : M A) (k : A -> M B) : M B :=
  fun w => match m w with
           | (Ok a, w') => k a w'
           | (Raise e, w') => (Raise e, w')
           end.
(** [try: body except Exception as e: handler e] *)
Definition try_except {A} (body : M A) (handler : exn -> M A) : M A :=
  fun w => match body w with
           | (Ok a, w') => (Ok a, w')
           | (Raise e, w') => handler e w'
           end.

Declare Scope py_scope.
Delimit Scope py_scope with py.
Notation "x <- m ;; k" := (bind m (fun x => k))
  (at level 100, m at next level, right associativity) : py_scope.
Notation "m ;;; k" := (bind m (fun _ => k))
  (at level 100, right associativity) : py_scope.
Local Open Scope py_scope.

Definition print (x : line) : M unit := fun w => (Ok tt, emit (Print x) w).

(** ** The ledger: [load_processed_files] and [save_processed_files] *)

(** [os.path.exists(PROCESSED_LOG_PATH)] *)
Definition ledger_exists : M bool :=
  fun w => (Ok (match ledger w with NoFile => false | _ => true end), w).

(** [with open(PROCESSED_LOG_PATH, "r") as f: set(json.load(f))] *)
Definition read_ledger : M (gset string) :=
  fun w => match ledger w with
           | NoFile => (Raise (FileNotFoundError ["processed_files.json"]), w)
           | Inaccessible e => (Raise e, w)
           | Corrupt e => (Raise e, w)
           | Array names => (Ok (list_to_set names), w)
           end.

(** [with open(PROCESSED_LOG_PATH, "w") as f: json.dump(names, f, ...)] *)
Definition write_ledger (names : list string) : M unit :=
  fun w => match ledger w with
           | Inaccessible e => (Raise e, w)
           | _ => (Ok tt, emit (Save names) (set_ledger (Array names) w))
           end.

Definition load_processed_files : M (gset string) :=
  b <- ledger_exists ;;
  if b then read_ledger else ret ∅.

(** [sorted(list(processed_set))] *)
Definition sorted (l : list string) : list string := merge_sort String.le l.

Definition save_processed_files (processed_set : gset string) : M unit :=
  write_ledger (sorted (elements processed_set)).

(** ** File-system calls *)

(** [Path.name]: the final component, [''] when there is none. *)
Definition path_name (p : path) : string := List.last p "".
Definition path_parent (p : path) : path := removelast p.

Definition is_dir (f : gmap path node) (p : path) : bool :=
  match p with
  | [] => true
  | _ => match f !! p with Some Dir => true | _ => false end
  end.

Definition exists_in (f : gmap path node) (p : path) : bool :=
  match p with
  | [] => true
  | _ => match f !! p with Some _ => true | None => false end
  end.

(** [os.makedirs(p, exist_ok=True)]: walks the prefixes of [p] from the
    root, creates the missing ones, and raises on a component that is a
    regular file. *)
Fixpoint makedirs_from (base rest : path) (f : gmap path node)
  : result (gmap path node) :=
  match rest with
  | [] => Ok f
  | c :: rest' =>
      let q := base ++ [c] in
      match f !! q with
      | Some (File _) =>
          Raise (match rest' with
                 | [] => FileExistsError q
                 | _ => NotADirectoryError q
                 end)
      | Some Dir => makedirs_from q rest' f
      | None => makedirs_from q rest' (<[q := Dir]> f)
      end
  end.

Definition os_makedirs (p : path) : M unit :=
  fun w => match makedirs_from [] p (fs w) with
           | Ok f => (Ok tt, set_fs f w)
           | Raise e => (Raise e, w)
           end.

Definition os_path_exists (p : path) : M bool :=
  fun w => (Ok (exists_in (fs w) p), w).

(** [open(p, 'rb').read()] *)
Definition read_file (p : path) : M bytes :=
  fun w => match p, fs w !! p with
           | [], _ => (Raise (IsADirectoryError p), w)
           | _, Some (File d) => (Ok d, w)
           | _, Some Dir => (Raise (IsADirectoryError p), w)
           | _, None => (Raise (FileNotFoundError p), w)
           end.

(** [open(p, 'wb').write(data)]: creates or truncates the file; the parent
    must be a directory and [p] must not be one. *)
Definition write_file (p : path) (data : bytes) : M unit :=
  fun w => if is_dir (fs w) p then (Raise (IsADirectoryError p), w)
           else if is_dir (fs w) (path_parent p)
                then (Ok tt, set_fs (<[p := File data]> (fs w)) w)
                else if exists_in (fs w) (path_parent p)
                     then (Raise (NotADirectoryError p), w)
                     else (Raise (FileNotFoundError p), w).

(** [shutil.copyfile(src, dst)] *)
Definition shutil_copyfile (src dst : path) : M unit :=
  same <- (e <- os_path_exists src ;; ret (e && bool_decide (src = dst))) ;;
  if same then raise (SameFileError src)
  else data <- read_file src ;; write_file dst data.

(** ** [Path.glob] *)

(** [fnmatch] on one path component, for patterns built from literal
    characters, [?] and [*] (case-sensitive, as on POSIX). *)
Fixpoint fnmatch (pat name : string) : bool :=
  match pat with
  | EmptyString => match name with EmptyString => true | _ => false end
  | String c pat' =>
      if Ascii.eqb c "*"%char then
        (fix star (n : string) : bool :=
           fnmatch pat' n
           || match n with
              | EmptyString => false
              | String _ n' => star n'
              end) name
      else
        match name with
        | EmptyString => false
        | String d name' =>
            (Ascii.eqb c "?"%char || Ascii.eqb c d) && fnmatch pat' name'
        end
  end.

(** The entries directly inside [dir] whose name matches [pat], in the
    order the directory lists them. *)
Definition glob_paths (f : gmap path node) (dir : path) (pat : string)
  : list path :=
  if is_dir f dir then
    filter
      (fun p => p ≠ [] /\ path_parent p = dir
                /\ fnmatch pat (path_name p) = true)
      (map fst (map_to_list f))
  else [].

Definition path_glob (dir : path) (pat : string) : M (list path) :=
  fun w => (Ok (glob_paths (fs w) dir pat), w).

(** [str.rfind(c)]: index of the last occurrence, [-1] when there is none. *)
Fixpoint rfind_from (c : ascii) (s : string) (i last : Z) : Z :=
  match s with
  | EmptyString => last
  | String a s' => rfind_from c s' (i + 1) (if Ascii.eqb a c then i else last)
  end.
Definition rfind (c : ascii) (s : string) : Z := rfind_from c s 0 (-1).

(** [Path.stem]: the name without its last suffix. *)
Definition path_stem (p : path) : string :=
  let name := path_name p in
  let i := rfind "."%char name in
  if (0 <? i) && (i <? Z.of_nat (String.length name) - 1)
  then String.substring 0 (Z.to_nat i) name
  else name.

Definition lift {A} (r : result A) : M A := fun w => (r, w).

(** ** The analysis library (package [magic_pdf]) *)

Inductive SupportedPdfParseMethod : Type := OCR | TXT.

(** Modelled from the spec: the result object of the analysis, which
    "exposes layout/span debug rendering, markdown export, structured
    content-list export, structured intermediate-representation export".
    Each export either raises or yields the bytes it writes. *)
Record PipeResult : Type := {
  layout_pdf : result bytes;
  spans_pdf : result bytes;
  markdown : result bytes;
  content_list : result bytes;
  middle_json : result bytes
}.

(** Modelled from the spec: the collaborator interface, "a
    document-classification call distinguishing an OCR-required variant
    from a direct-text variant; an analysis call taking raw document bytes
    and a mode flag, returning a result object".  The library is opaque:
    every call is an arbitrary function that may raise.  A pipe call also
    yields the images it extracts, by file name. *)
Record Pipeline : Type := {
  Dataset : Type;
  InferenceResult : Type;
  PymuDocDataset : bytes -> result Dataset;
  classify : Dataset -> result SupportedPdfParseMethod;
  apply_doc_analyze : Dataset -> bool -> result InferenceResult;
  pipe_ocr_mode : InferenceResult -> list (string * bytes) * result PipeResult;
  pipe_txt_mode : InferenceResult -> list (string * bytes) * result PipeResult
}.

(** Modelled from the spec: [FileBasedDataWriter(parent_dir).write(name,
    data)], the "output-directory writer abstraction": it writes the file
    [name] of its directory. *)
Definition writer_write (parent_dir : path) (name : string) (data : bytes)
  : M unit :=
  write_file (parent_dir ++ [name]) data.

(** Modelled from the spec: [FileBasedDataReader("").read(path)] returns
    the bytes of the file. *)
Definition reader_read (p : path) : M bytes := read_file p.

(** Modelled from the spec: a pipe call writes the extracted images
    through the image writer, then returns the result object or raises. *)
Fixpoint write_images (image_writer : path) (imgs : list (string * bytes))
  : M unit :=
  match imgs with
  | [] => ret tt
  | (name, data) :: rest =>
      writer_write image_writer name data ;;; write_images image_writer rest
  end.

Definition run_pipe (out : list (string * bytes) * result PipeResult)
  (image_writer : path) : M PipeResult :=
  write_images image_writer (fst out) ;;; lift (snd out).

(** Modelled from the spec: [pipe_result.draw_layout(path)] and
    [pipe_result.draw_span(path)] render to the file [path];
    [dump_md], [dump_content_list] and [dump_middle_json] write the file
    [name] through the writer. *)
Definition draw_layout (r : PipeResult) (p : path) : M unit :=
  data <- lift (layout_pdf r) ;; write_file p data.
Definition draw_span (r : PipeResult) (p : path) : M unit :=
  data <- lift (spans_pdf r) ;; write_file p data.
Definition dump_md (r : PipeResult) (writer : path) (name image_dir : string)
  : M unit :=
  data <- lift (markdown r) ;; writer_write writer name data.
Definition dump_content_list (r : PipeResult) (writer : path)
  (name image_dir : string) : M unit :=
  data <- lift (content_list r) ;; writer_write writer name data.
Definition dump_middle_json (r : PipeResult) (writer : path) (name : string)
  : M unit :=
  data <- lift (middle_json r) ;; writer_write writer name data.

(** ** The worker: [process_single_pdf] *)

Definition analyse (pl : Pipeline) (pdf_bytes : bytes) (image_writer : path)
  : M PipeResult :=
  ds <- lift (PymuDocDataset pl pdf_bytes) ;;
  method <- lift (classify pl ds) ;;
  match method with
  | OCR =>
      infer_result <- lift (apply_doc_analyze pl ds true) ;;
      run_pipe (pipe_ocr_mode pl infer_result) image_writer
  | TXT =>
      infer_result <- lift (apply_doc_analyze pl ds false) ;;
      run_pipe (pipe_txt_mode pl infer_result) image_writer
  end.

Definition process_body (pl : Pipeline) (pdf_path output_root : path)
  : M (option string) :=
  let name_without_extension := path_stem pdf_path in
  let local_image_dir := output_root ++ [name_without_extension; "images"] in
  let local_md_dir := output_root ++ [name_without_extension] in
  let image_dir := path_name local_image_dir in
  os_makedirs local_image_dir ;;;
  os_makedirs local_md_dir ;;;
  let markdown_collect_dir := output_root ++ ["markdowns"] in
  os_makedirs markdown_collect_dir ;;;
  let image_writer := local_image_dir in
  let md_writer := local_md_dir in
  pdf_bytes <- reader_read pdf_path ;;
  pipe_result <- analyse pl pdf_bytes image_writer ;;
  draw_layout pipe_result
    (local_md_dir ++ [name_without_extension +:+ "_layout.pdf"]) ;;;
  draw_span pipe_result
    (local_md_dir ++ [name_without_extension +:+ "_spans.pdf"]) ;;;
  let md_file_name := name_without_extension +:+ ".md" in
  dump_md pipe_result md_writer md_file_name image_dir ;;;
  let src_md_path := local_md_dir ++ [md_file_name] in
  let dst_md_path := markdown_collect_dir ++ [md_file_name] in
  found <- os_path_exists src_md_path ;;
  (if found then shutil_copyfile src_md_path dst_md_path else ret tt) ;;;
  dump_content_list pipe_result md_writer
    (name_without_extension +:+ "_content_list.json") image_dir ;;;
  dump_middle_json pipe_result md_writer
    (name_without_extension +:+ "_middle.json") ;;;
  ret (Some (path_name pdf_path)).

Definition process_single_pdf (pl : Pipeline) (args : task)
  : M (option string) :=
  let '(pdf_path, output_root) := args in
  try_except
    (process_body pl pdf_path output_root)
    (fun e => print (FailedLine (path_name pdf_path) e) ;;; ret None).

(** ** The process pool *)

(** [Pool(processes=n)] *)
Definition Pool (processes : Z) : M unit :=
  if processes <? 1
  then raise (ValueError "Number of processes must be at least 1")
  else ret tt.

(** [imap_unordered] hands every task to the worker once and yields the
    results in completion order, which is some rearrangement of the
    submission order.  The workers' effects are taken in that order. *)
Record Schedule : Type := {
  completion : list task -> list task;
  completion_perm : forall l, completion l ≡ₚ l
}.

Definition pool_call (func : task -> M (option string)) (t : task)
  : M (option string) :=
  r <- func t ;;
  fun w => (Ok r, emit (Complete t r) w).

(** ** The runner: [batch] *)

(** The body of the [for result in ...] loop. *)
Definition handle_result (result : option string)
  (st : gset string * list string) : M (gset string * list string) :=
  let '(processed_files, success_files) := st in
  match truthy result with
  | None => ret st
  | Some r =>
      let processed_files := {[ r ]} ∪ processed_files in
      let success_files := success_files ++ [r] in
      save_processed_files processed_files ;;;
      ret (processed_files, success_files)
  end.

Fixpoint imap_loop (pl : Pipeline) (order : list task)
  (st : gset string * list string) : M (gset string * list string) :=
  match order with
  | [] => ret st
  | t :: rest =>
      result <- pool_call (process_single_pdf pl) t ;;
      st' <- handle_result result st ;;
      imap_loop pl rest st'
  end.

Definition unprocessed (all_pdf_paths : list path)
  (processed_files : gset string) : list path :=
  filter (fun p => path_name p ∉ processed_files) all_pdf_paths.

Definition make_tasks (unprocessed_paths : list path) (output_dir : path)
  : list task :=
  map (fun p => (p, output_dir)) unprocessed_paths.

(** Lines 88 to 95 of [batch]: what the run enumerates, loads and
    decides to dispatch. *)
Definition batch_scan (pdf_dir output_dir : path)
  : M (list path * gset string * list task) :=
  os_makedirs output_dir ;;;
  all_pdf_paths <- path_glob pdf_dir "*.pdf" ;;
  processed_files <- load_processed_files ;;
  let unprocessed_paths := unprocessed all_pdf_paths processed_files in
  let task_args := make_tasks unprocessed_paths output_dir in
  ret (all_pdf_paths, processed_files, task_args).

Definition batch (sch : Schedule) (pl : Pipeline)
  (pdf_dir output_dir : path) (max_workers : Z) : M unit :=
  scanned <- batch_scan pdf_dir output_dir ;;
  let '(all_pdf_paths, processed_files, task_args) := scanned in
  print (FoundLine (length all_pdf_paths) (size processed_files)
           (length task_args)) ;;;
  Pool max_workers ;;;
  st <- imap_loop pl (completion sch task_args) (processed_files, []) ;;
  print (DoneLine (length (snd st))) ;;;
  save_processed_files (fst st).

(** ** Vocabulary of the properties *)

(** The ledger path can be opened for writing. *)
Definition writable (l : ledger_file) : Prop :=
  match l with Inaccessible _ => False | _ => True end.

(** The ledger path holds nothing or an array of strings. *)
Definition loadable (l : ledger_file) : Prop :=
  match l with NoFile | Array _ => True | _ => False end.

Definition task_name (t : task) : string := path_name (fst t).

(** A computation is [fs_only] when it leaves the ledger file and the
    trace as they were, whether it returns or raises. *)
Definition fs_only {A} (m : M A) : Prop :=
  forall w, ledger (snd (m w)) = ledger w /\ trace (snd (m w)) = trace w.

(** A computation [keeps_dirs] when every directory of the file system is
    still a directory after it, whether it returns or raises. *)
Definition keeps_dirs {A} (m : M A) : Prop :=
  forall w q, fs w !! q = Some Dir -> fs (snd (m w)) !! q = Some Dir.

(** A pattern without wildcard matches itself only. *)
Fixpoint literal (pat : string) : bool :=
  match pat with
  | EmptyString => true
  | String c pat' =>
      negb (Ascii.eqb c "*"%char) && negb (Ascii.eqb c "?"%char) && literal pat'
  end.

(** The entries of the file system at or below a directory. *)
Definition subtree (f : gmap path node) (dir : path) : list (path * node) :=
  filter (fun kv => dir `prefix_of` fst kv) (map_to_list f).

(** The traces of the loop of [batch]: started with the set [S] on the
    tasks [order], it produces the events [tr] and ends with the set [S']. *)
Inductive loop_trace
  : gset string -> list task -> list event -> gset string -> Prop :=
| loop_done S :
    loop_trace S [] [] S
| loop_failed S t order tr S' e :
    loop_trace S order tr S' ->
    loop_trace S (t :: order)
      (Print (FailedLine (path_name (fst t)) e) :: Complete t None :: tr) S'
| loop_saved S t order tr S' :
    path_name (fst t) ≠ "" ->
    loop_trace ({[ path_name (fst t) ]} ∪ S) order tr S' ->
    loop_trace S (t :: order)
      (Complete t (Some (path_name (fst t)))
       :: Save (sorted (elements ({[ path_name (fst t) ]} ∪ S))) :: tr) S'
| loop_unnamed S t order tr S' :
    path_name (fst t) = "" ->
    loop_trace S order tr S' ->
    loop_trace S (t :: order) (Complete t (Some "") :: tr) S'.

(** How a run of [batch] ends: the scan raises; or the pool cannot be
    created; or the loop runs over the completion order and the run ends
    with the final save. *)
Inductive batch_outcome (sch : Schedule) (pdf_dir output_dir : path)
  (max_workers : Z) (w : world) : result unit -> world -> Prop :=
| scan_raised e w1 :
    batch_scan pdf_dir output_dir w = (Raise e, w1) ->
    ledger w1 = ledger w -> trace w1 = trace w ->
    batch_outcome sch pdf_dir output_dir max_workers w (Raise e) w1
| pool_raised all S0 tasks w1 e w' :
    batch_scan pdf_dir output_dir w = (Ok (all, S0, tasks), w1) ->
    max_workers < 1 ->
    ledger w' = ledger w ->
    trace w' = trace w ++ [Print (FoundLine (length all) (size S0) (length tasks))] ->
    batch_outcome sch pdf_dir output_dir max_workers w (Raise e) w'
| completed all S0 tasks w1 tr S' w' :
    batch_scan pdf_dir output_dir w = (Ok (all, S0, tasks), w1) ->
    1 <= max_workers ->
    loop_trace S0 (completion sch tasks) tr S' ->
    ledger w' = Array (sorted (elements S')) ->
    trace w' = trace w
               ++ Print (FoundLine (length all) (size S0) (length tasks))
               :: tr
               ++ [Print (DoneLine (length (successes tr)));
                   Save (sorted (elements S'))] ->
    batch_outcome sch pdf_dir output_dir max_workers w (Ok tt) w'.


(** Every accepted completion in [tr] is followed at once by a write of
    the ledger file. *)
Definition saves_immediate (tr : list event) : Prop :=
  forall tr1 t name tr2,
    tr = tr1 ++ Complete t (Some name) :: tr2 -> name ≠ "" ->
    exists x tr3, tr2 = Save x :: tr3.

(** Both entries are directories, or both are regular files. *)
Definition same_kind (x y : node) : Prop :=
  match x, y with
  | Dir, Dir => True
  | File _, File _ => True
  | _, _ => False
  end.

(** Every entry of [f] is still an entry of [f'], of the same kind. *)
Definition kept (f f' : gmap path node) : Prop :=
  forall q x, f !! q = Some x -> exists y, f' !! q = Some y /\ same_kind x y.

Definition keeps_entries {A} (m : M A) : Prop :=
  forall w, kept (fs w) (fs (snd (m w))).

(** Outside [root], [f'] is [f] with, at most, new directories on the way
    down to [root]. *)
Definition confined (root : path) (f f' : gmap path node) : Prop :=
  forall q, ¬ root `prefix_of` q ->
    f' !! q = f !! q
    \/ (f !! q = None /\ f' !! q = Some Dir /\ q `prefix_of` root).

Definition writes_under {A} (root : path) (m : M A) : Prop :=
  forall w, confined root (fs w) (fs (snd (m w))).

(** The names [.] and [..] are resolved by the operating system and name
    no entry of their own.  They are stems of files the enumeration can
    list: [..pdf] has the stem [.], and [...pdf] the stem [..], so that
    the directory of such a file is the output root or its parent. *)
Definition special (name : string) : Prop := name = "." \/ name = "..".

(** ** Concrete instances, used to run the model *)

(** Results in submission order, and in the reverse order. *)
Definition fifo : Schedule :=
  {| completion := fun l => l;
     completion_perm := fun l => Permutation_refl l |}.

Definition lifo : Schedule :=
  {| completion := fun l => reverse l;
     completion_perm := fun l => reverse_Permutation l |}.

(** A pipeline that fails on documents whose bytes are not ["%PDF"]. *)
Definition demo_result : PipeResult :=
  {| layout_pdf := Ok "L"; spans_pdf := Ok "S"; markdown := Ok "# md";
     content_list := Ok "[]"; middle_json := Ok "{}" |}.

Definition demo_pipeline : Pipeline :=
  {| Dataset := bytes;
     InferenceResult := bool;
     PymuDocDataset := fun b =>
       if String.eqb b "%PDF" then Ok b
       else Raise (PipelineError "cannot open document");
     classify := fun _ => Ok TXT;
     apply_doc_analyze := fun _ ocr => Ok ocr;
     pipe_ocr_mode := fun _ => ([("0.jpg", "i")], Ok demo_result);
     pipe_txt_mode := fun _ => ([("0.jpg", "i")], Ok demo_result) |}.

Definition demo_fs : gmap path node :=
  <[ ["in"; "a.pdf"] := File "%PDF" ]>
  (<[ ["in"; "b.pdf"] := File "junk" ]>
  (<[ ["in"; "c.txt"] := File "%PDF" ]>
  (<[ ["in"; "sub"] := Dir ]>
  (<[ ["in"; "sub"; "d.pdf"] := File "%PDF" ]>
  (<[ ["in"] := Dir ]> ∅))))).

Definition demo_world : world := World demo_fs NoFile [].

(** The scenario of the spec: the input directory holds [a.pdf] and
    [b.pdf], both accepted by the pipeline, and there is no ledger yet. *)
Definition two_pdfs : world :=
  World (<[ ["in"; "a.pdf"] := File "%PDF" ]>
         (<[ ["in"; "b.pdf"] := File "%PDF" ]>
         (<[ ["in"] := Dir ]> ∅))) NoFile [].


(** The files a successful worker writes for the stem [stem] (lines 63 to
    76): the five exports in the directory of the file and the collected
    copy of the markdown. *)
Definition output_files (output_root : path) (stem : string) : list path :=
  [ output_root ++ [stem; stem +:+ "_layout.pdf"];
    output_root ++ [stem; stem +:+ "_spans.pdf"];
    output_root ++ [stem; stem +:+ ".md"];
    output_root ++ ["markdowns"; stem +:+ ".md"];
    output_root ++ [stem; stem +:+ "_content_list.json"];
    output_root ++ [stem; stem +:+ "_middle.json"] ].

(** An input directory with the two files [.pdf] and [.pdf.pdf]. *)
Definition dotted_fs : gmap path node :=
  <[ ["in"; ".pdf"] := File "%PDF" ]>
  (<[ ["in"; ".pdf.pdf"] := File "%PDF" ]>
  (<[ ["in"] := Dir ]> ∅)).

(** Running a computation again.  A first run goes from the file system
    [f0] to [f1] and writes below [root] only; [a] is a state of that run
    and [b] the state of a second run, started from [f1], at the same
    point: [b] has every entry of [f1], and it holds at every path what
    the first run had there at this point or what it left there in the
    end. *)
Definition replay_rel (root : path) (f0 f1 a b : gmap path node) : Prop :=
  confined root f0 a
  /\ kept f1 b
  /\ forall q, b !! q = a !! q \/ b !! q = f1 !! q.

(** The computation [m], when it returned in the first run, returns the
    same in the second and keeps the two runs related. *)
Definition replays {A : Type} (root : path) (f0 f1 : gmap path node) (m : M A)
  : Prop :=
  forall wa a wa' wb,
    m wa = (Ok a, wa') ->
    kept (fs wa') f1 ->
    replay_rel root f0 f1 (fs wa) (fs wb) ->
    exists wb', m wb = (Ok a, wb')
                /\ replay_rel root f0 f1 (fs wa') (fs wb').

(** The paths at which a worker may create or overwrite a regular file
    for the stem [stem]: its six output files, and the images, which go
    directly into its image directory. *)
Definition footprint (output_root : path) (stem : string) (q : path) : Prop :=
  q ∈ output_files output_root stem
  \/ exists n, q = output_root ++ [stem; "images"; n].

(** Outside [P], [f'] is [f] with, at most, directories made where there
    was nothing. *)
Definition changed_within (P : path -> Prop) (f f' : gmap path node) : Prop :=
  forall q, ¬ P q ->
    f' !! q = f !! q \/ (f !! q = None /\ f' !! q = Some Dir).

Definition changes_within {A : Type} (P : path -> Prop) (m : M A) : Prop :=
  forall w, changed_within P (fs w) (fs (snd (m w))).

(** The footprints of the tasks of [order]. *)
Definition tasks_footprint (order : list task) (q : path) : Prop :=
  exists t, t ∈ order /\ footprint (snd t) (path_stem (fst t)) q.

(** The footprints of the tasks of [order] other than [t]. *)
Definition others_footprint (order : list task) (t : task) (q : path) : Prop :=
  exists t', t' ∈ order /\ t' ≠ t /\ footprint (snd t') (path_stem (fst t')) q.

Definition last_char (s : string) : option ascii :=
  last (String.list_ascii_of_string s).

(** * Properties *)

(** ** Running the model *)

Example path_stem_examples :
  path_stem ["in"; "doc.pdf"] = "doc"
  /\ path_stem ["in"; "a.b.pdf"] = "a.b"
  /\ path_stem ["in"; ".pdf"] = ".pdf"
  /\ path_stem ["in"; "noext"] = "noext".
Proof. repeat split; reflexivity. Qed.

Example special_stems :
  path_stem ["in"; "..pdf"] = "." /\ path_stem ["in"; "...pdf"] = "..".
Proof. split; reflexivity. Qed.

Example fnmatch_examples :
  fnmatch "*.pdf" "a.pdf" = true
  /\ fnmatch "*.pdf" ".pdf" = true
  /\ fnmatch "*.pdf" "a.pdf.txt" = false
  /\ fnmatch "*.pdf" "apdf" = false.
Proof. repeat split; reflexivity. Qed.

Example glob_demo :
  glob_paths demo_fs ["in"] "*.pdf" = [["in"; "b.pdf"]; ["in"; "a.pdf"]].
Proof. vm_compute. reflexivity. Qed.

(** Two files, both processed; the second run dispatches nothing and
    leaves the ledger as it was. *)
Example two_pdfs_scenario :
  let run1 := batch fifo demo_pipeline ["in"] ["out"] 2 two_pdfs in
  let run2 := batch fifo demo_pipeline ["in"] ["out"] 2 (snd run1) in
  fst run1 = Ok tt
  /\ ledger (snd run1) = Array ["a.pdf"; "b.pdf"]
  /\ glob_paths (fs (snd run1)) ["out"; "markdowns"] "*.md"
     = [["out"; "markdowns"; "b.md"]; ["out"; "markdowns"; "a.md"]]
  /\ fst run2 = Ok tt
  /\ pool_log (drop (length (trace (snd run1))) (trace (snd run2))) = []
  /\ ledger (snd run2) = ledger (snd run1).
Proof. vm_compute. repeat split; reflexivity. Qed.

(** A file named [markdowns.pdf] cannot be processed: its markdown is
    written where the collected copy goes, and [shutil.copyfile] refuses
    to copy a file onto itself. *)
Example markdowns_pdf_fails :
  fst (process_single_pdf demo_pipeline (["in"; "markdowns.pdf"], ["out"])
         (World (<[ ["in"; "markdowns.pdf"] := File "%PDF" ]> ∅) NoFile []))
  = Ok None.
Proof. vm_compute. reflexivity. Qed.

(** ** The monad *)

Lemma bind_Ok_inv {A B} (m : M A) (k : A -> M B) w b w' :
  bind m k w = (Ok b, w') ->
  exists a w1, m w = (Ok a, w1) /\ k a w1 = (Ok b, w').
Proof.
  unfold bind. destruct (m w) as [[a|e] w1]; intros H; [eauto | discriminate].
Qed.

Lemma bind_Ok {A B} (m : M A) (k : A -> M B) w a w1 :
  m w = (Ok a, w1) -> bind m k w = k a w1.
Proof. unfold bind. intros ->. reflexivity. Qed.

Lemma bind_Raise {A B} (m : M A) (k : A -> M B) w e w1 :
  m w = (Raise e, w1) -> bind m k w = (Raise e, w1).
Proof. unfold bind. intros ->. reflexivity. Qed.

(** ** Sorting *)

Lemma sorted_Permutation l : sorted l ≡ₚ l.
Proof. apply merge_sort_Permutation. Qed.



Lemma sorted_elements_set (S : gset string) :
  list_to_set (sorted (elements S)) = S.
Proof.
  apply set_eq. intros x.
  rewrite elem_of_list_to_set, sorted_Permutation. apply elem_of_elements.
Qed.


(** ** The ledger *)

Lemma save_processed_files_Ok (S : gset string) w :
  writable (ledger w) ->
  save_processed_files S w =
    (Ok tt, World (fs w) (Array (sorted (elements S)))
              (trace w ++ [Save (sorted (elements S))])).
Proof.
  unfold save_processed_files, write_ledger, emit, set_ledger.
  destruct w as [f l tr]; simpl. destruct l; simpl; intros H; done.
Qed.

Lemma load_processed_files_Array names w :
  ledger w = Array names ->
  load_processed_files w = (Ok (list_to_set names), w).
Proof.
  intros H. unfold load_processed_files, bind, ledger_exists, read_ledger.
  simpl. rewrite H. simpl. by rewrite H.
Qed.

Lemma load_processed_files_NoFile w :
  ledger w = NoFile -> load_processed_files w = (Ok ∅, w).
Proof.
  intros H. unfold load_processed_files, bind, ledger_exists.
  simpl. by rewrite H.
Qed.

Lemma load_processed_files_Ok_inv w S w' :
  load_processed_files w = (Ok S, w') ->
  w' = w /\ writable (ledger w) /\ S = ledger_set (ledger w).
Proof.
  unfold load_processed_files, bind, ledger_exists, read_ledger, ret.
  destruct (ledger w) eqn:E; simpl; rewrite ?E; intros H; inversion H; done.
Qed.

Lemma load_processed_files_same_world w r w' :
  load_processed_files w = (r, w') -> w' = w.
Proof.
  unfold load_processed_files, bind, ledger_exists, read_ledger, ret.
  destruct (ledger w) eqn:E; simpl; rewrite ?E; intros H; inversion H; done.
Qed.



(** C7. [load_processed_files] returns the empty set when there is no
    ledger file, the set of the strings of the array when the file holds a
    JSON array of strings, and raises the exception of [open] or of the
    parser when the file cannot be read or is corrupt, leaving the world as
    it was.  [batch] does not catch it: on such a ledger the run raises the
    same exception as soon as the output directory is made, before any
    task is dispatched. *)
Theorem load_processed_files_contract (f : gmap path node) (tr : list event) :
  load_processed_files (World f NoFile tr) = (Ok ∅, World f NoFile tr)
  /\ (forall names,
        load_processed_files (World f (Array names) tr)
        = (Ok (list_to_set names), World f (Array names) tr))
  /\ (forall e,
        load_processed_files (World f (Inaccessible e) tr)
        = (Raise e, World f (Inaccessible e) tr))
  /\ (forall e,
        load_processed_files (World f (Corrupt e) tr)
        = (Raise e, World f (Corrupt e) tr))
  /\ (forall sch pl pdf_dir output_dir max_workers e,
        batch sch pl pdf_dir output_dir max_workers (World f (Inaccessible e) tr)
        = match makedirs_from [] output_dir f with
          | Ok f' => (Raise e, World f' (Inaccessible e) tr)
          | Raise e' => (Raise e', World f (Inaccessible e) tr)
          end)
  /\ (forall sch pl pdf_dir output_dir max_workers e,
        batch sch pl pdf_dir output_dir max_workers (World f (Corrupt e) tr)
        = match makedirs_from [] output_dir f with
          | Ok f' => (Raise e, World f' (Corrupt e) tr)
          | Raise e' => (Raise e', World f (Corrupt e) tr)
          end).
Proof.
  repeat split; try reflexivity.
  - intros. unfold batch, batch_scan, bind, os_makedirs; simpl.
    destruct (makedirs_from [] output_dir f); reflexivity.
  - intros. unfold batch, batch_scan, bind, os_makedirs; simpl.
    destruct (makedirs_from [] output_dir f); reflexivity.
Qed.

(** ** Calls that only touch the file system *)

Create HintDb fs_only.

Lemma fs_only_ret {A} (a : A) : fs_only (ret a).
Proof. intros w. done. Qed.

Lemma fs_only_raise {A} e : fs_only (@raise A e).
Proof. intros w. done. Qed.

Lemma fs_only_lift {A} (r : result A) : fs_only (lift r).
Proof. intros w. done. Qed.

Lemma fs_only_bind {A B} (m : M A) (k : A -> M B) :
  fs_only m -> (forall a, fs_only (k a)) -> fs_only (bind m k).
Proof.
  intros Hm Hk w. unfold bind. specialize (Hm w).
  destruct (m w) as [[a|e] w1]; simpl in *.
  - destruct (Hk a w1) as [-> ->]. done.
  - done.
Qed.

Lemma fs_only_os_makedirs p : fs_only (os_makedirs p).
Proof.
  intros w. unfold os_makedirs. by destruct (makedirs_from [] p (fs w)).
Qed.

Lemma fs_only_os_path_exists p : fs_only (os_path_exists p).
Proof. intros w. done. Qed.

Lemma fs_only_read_file p : fs_only (read_file p).
Proof.
  intros w. unfold read_file.
  destruct p; [done |]. by destruct (fs w !! _) as [[]|].
Qed.

Lemma fs_only_write_file p d : fs_only (write_file p d).
Proof.
  intros w. unfold write_file.
  destruct (is_dir (fs w) p); [done |].
  destruct (is_dir (fs w) (path_parent p)); [done |].
  by destruct (exists_in (fs w) (path_parent p)).
Qed.

#[local] Hint Resolve fs_only_ret fs_only_raise fs_only_lift fs_only_os_makedirs
  fs_only_os_path_exists fs_only_read_file fs_only_write_file : fs_only.

Ltac fs_only_step :=
  match goal with
  | |- fs_only (bind _ _) => apply fs_only_bind; [| intros ?]
  | |- fs_only (if ?b then _ else _) => destruct b
  | |- fs_only (match ?x with OCR => _ | TXT => _ end) => destruct x
  | |- fs_only _ => solve [auto with fs_only]
  end.

Lemma fs_only_shutil_copyfile src dst : fs_only (shutil_copyfile src dst).
Proof. unfold shutil_copyfile. repeat fs_only_step. Qed.

Lemma fs_only_write_images dir imgs : fs_only (write_images dir imgs).
Proof.
  induction imgs as [|[name data] imgs IH]; simpl.
  - apply fs_only_ret.
  - unfold writer_write. repeat fs_only_step.
Qed.

#[local] Hint Resolve fs_only_shutil_copyfile fs_only_write_images : fs_only.

Lemma fs_only_analyse pl b dir : fs_only (analyse pl b dir).
Proof. unfold analyse, run_pipe. repeat fs_only_step. Qed.

#[local] Hint Resolve fs_only_analyse : fs_only.

Lemma fs_only_process_body pl pdf_path output_root :
  fs_only (process_body pl pdf_path output_root).
Proof.
  unfold process_body, reader_read, draw_layout, draw_span, dump_md,
    dump_content_list, dump_middle_json, writer_write.
  repeat fs_only_step.
Qed.

(** ** The worker *)

(** The worker returns the name of its file and prints nothing, or prints
    one failure line for the file and returns [None]; it never touches the
    ledger file. *)
Lemma process_single_pdf_cases pl pdf_path output_root w :
  exists w',
    ledger w' = ledger w
    /\ ((process_single_pdf pl (pdf_path, output_root) w
         = (Ok (Some (path_name pdf_path)), w')
         /\ trace w' = trace w)
        \/ (exists e,
              process_single_pdf pl (pdf_path, output_root) w = (Ok None, w')
              /\ trace w' = trace w ++ [Print (FailedLine (path_name pdf_path) e)])).
Proof.
  unfold process_single_pdf, try_except.
  pose proof (fs_only_process_body pl pdf_path output_root w) as [Hl Ht].
  destruct (process_body pl pdf_path output_root w) as [[r|e] w1] eqn:E;
    simpl in *.
  - exists w1. split; [done |]. left. split; [| done].
    assert (r = Some (path_name pdf_path)) as ->; [| done].
    unfold process_body in E.
    repeat (apply bind_Ok_inv in E as (? & ? & _ & E)).
    unfold ret in E. by inversion E.
  - eexists. split; [| right; exists e; split; [reflexivity |]].
    + simpl. done.
    + simpl. by rewrite Ht.
Qed.


(** ** Enumeration of the input directory *)

Lemma path_split (p : path) : p ≠ [] -> p = path_parent p ++ [path_name p].
Proof. intros H. by apply app_removelast_last. Qed.

Lemma path_parent_snoc (dir : path) name : path_parent (dir ++ [name]) = dir.
Proof. apply removelast_last. Qed.

Lemma path_name_snoc (dir : path) name : path_name (dir ++ [name]) = name.
Proof. apply last_last. Qed.

Lemma fnmatch_literal pat name :
  literal pat = true -> fnmatch pat name = true <-> name = pat.
Proof.
  revert name. induction pat as [|c pat IH]; intros name Hl; simpl in *.
  - destruct name; split; intros H; done.
  - apply andb_prop in Hl as [Hc Hl]. apply andb_prop in Hc as [Hs Hq].
    apply negb_true_iff in Hs, Hq. rewrite Hs, Hq. simpl.
    destruct name as [|d name]; [split; intros H; done |].
    rewrite andb_true_iff, Ascii.eqb_eq, (IH _ Hl).
    split; [intros [-> ->]; done | intros H; by inversion H].
Qed.

Lemma append_nil_l s : "" +:+ s = s.
Proof. reflexivity. Qed.

Lemma append_cons c s1 s2 : String c s1 +:+ s2 = String c (s1 +:+ s2).
Proof. reflexivity. Qed.

Lemma fnmatch_star pat name :
  fnmatch (String "*"%char pat) name = true
  <-> exists pre suf, name = pre +:+ suf /\ fnmatch pat suf = true.
Proof.
  simpl. induction name as [|d name IH].
  - rewrite orb_false_r. split.
    + intros H. by exists "", "".
    + intros (pre & suf & E & H). destruct pre; [| done].
      rewrite append_nil_l in E. by subst.
  - rewrite orb_true_iff, IH. split.
    + intros [H | (pre & suf & -> & H)].
      * by exists "", (String d name).
      * by exists (String d pre), suf.
    + intros (pre & suf & E & H). destruct pre as [|c pre].
      * left. rewrite append_nil_l in E. by subst.
      * right. rewrite append_cons in E. inversion E; subst. eauto.
Qed.

Lemma fnmatch_pdf name :
  fnmatch "*.pdf" name = true <-> exists pre, name = pre +:+ ".pdf".
Proof.
  rewrite fnmatch_star. split.
  - intros (pre & suf & -> & H). apply fnmatch_literal in H; [| done].
    subst. eauto.
  - intros (pre & ->). exists pre, ".pdf". split; [done |].
    by apply fnmatch_literal.
Qed.

Lemma elem_of_glob_paths f dir pat p :
  p ∈ glob_paths f dir pat
  <-> is_dir f dir = true /\ is_Some (f !! p)
      /\ exists name, p = dir ++ [name] /\ fnmatch pat name = true.
Proof.
  unfold glob_paths. destruct (is_dir f dir).
  - rewrite list_elem_of_filter, list_elem_of_fmap. split.
    + intros ((Hne & Hpar & Hm) & ([q x] & -> & Hin)).
      apply elem_of_map_to_list in Hin. simpl in *.
      split; [done |]. split; [eauto |].
      exists (path_name q). split; [| done].
      rewrite <- Hpar. by apply path_split.
    + intros (_ & [x Hx] & name & -> & Hm).
      rewrite path_parent_snoc, path_name_snoc. split.
      * split; [by destruct dir | done].
      * exists (dir ++ [name], x). split; [done |].
        by apply elem_of_map_to_list.
  - rewrite elem_of_nil. split; [done | intros [? _]; done].
Qed.

Lemma NoDup_glob_paths f dir pat : NoDup (glob_paths f dir pat).
Proof.
  unfold glob_paths. destruct (is_dir f dir); [| constructor].
  apply NoDup_filter, NoDup_fst_map_to_list.
Qed.

Lemma glob_paths_parent f dir pat p :
  p ∈ glob_paths f dir pat -> p = dir ++ [path_name p].
Proof.
  intros (_ & _ & name & -> & _)%elem_of_glob_paths.
  by rewrite path_name_snoc.
Qed.

Lemma NoDup_glob_names f dir pat :
  NoDup (map path_name (glob_paths f dir pat)).
Proof.
  apply NoDup_fmap_2_strong; [| apply NoDup_glob_paths].
  intros p q Hp Hq E.
  rewrite (glob_paths_parent _ _ _ _ Hp), (glob_paths_parent _ _ _ _ Hq).
  by rewrite E.
Qed.

Lemma glob_pdf_name_nonempty f dir p :
  p ∈ glob_paths f dir "*.pdf" -> path_name p ≠ "".
Proof.
  intros (_ & _ & name & -> & Hm)%elem_of_glob_paths.
  rewrite path_name_snoc. apply fnmatch_pdf in Hm as [pre ->].
  by destruct pre.
Qed.

(** ** The collection loop *)

Lemma truthy_Some name : name ≠ "" -> truthy (Some name) = Some name.
Proof. intros H. unfold truthy. by apply String.eqb_neq in H as ->. Qed.

Lemma successes_cons_Print x tr : successes (Print x :: tr) = successes tr.
Proof. reflexivity. Qed.

Lemma successes_cons_Save x tr : successes (Save x :: tr) = successes tr.
Proof. reflexivity. Qed.

Lemma successes_cons_Complete t r tr :
  successes (Complete t r :: tr)
  = match truthy r with Some n => n :: successes tr | None => successes tr end.
Proof. unfold successes. simpl. by destruct (truthy r). Qed.

Lemma successes_app tr1 tr2 :
  successes (tr1 ++ tr2) = successes tr1 ++ successes tr2.
Proof. unfold successes, pool_log. by rewrite !omap_app. Qed.

Lemma pool_log_app tr1 tr2 : pool_log (tr1 ++ tr2) = pool_log tr1 ++ pool_log tr2.
Proof. apply omap_app. Qed.

Lemma failures_app tr1 tr2 :
  failures (tr1 ++ tr2) = failures tr1 ++ failures tr2.
Proof. unfold failures, pool_log. by rewrite !omap_app. Qed.


Lemma stdout_app tr1 tr2 : stdout (tr1 ++ tr2) = stdout tr1 ++ stdout tr2.
Proof. apply omap_app. Qed.

Lemma loop_trace_set S order tr S' :
  loop_trace S order tr S' -> S' = S ∪ list_to_set (successes tr).
Proof.
  induction 1 as [S | S t order tr S' e _ IH | S t order tr S' Hn _ IH
                 | S t order tr S' Hn _ IH].
  - simpl. by rewrite (right_id_L ∅ (∪)).
  - by rewrite successes_cons_Print, successes_cons_Complete.
  - rewrite successes_cons_Complete, (truthy_Some _ Hn), successes_cons_Save.
    rewrite IH. simpl.
    by rewrite (assoc_L (∪)), (comm_L (∪) S {[ path_name t.1 ]}).
  - by rewrite successes_cons_Complete.
Qed.

Lemma handle_result_truthy name S succ w :
  name ≠ "" -> writable (ledger w) ->
  handle_result (Some name) (S, succ) w
  = (Ok ({[ name ]} ∪ S, succ ++ [name]),
     World (fs w) (Array (sorted (elements ({[ name ]} ∪ S))))
       (trace w ++ [Save (sorted (elements ({[ name ]} ∪ S)))])).
Proof.
  intros Hn Hw. unfold handle_result. rewrite (truthy_Some _ Hn).
  by rewrite (bind_Ok _ _ _ _ _ (save_processed_files_Ok _ w Hw)).
Qed.

Lemma handle_result_falsy r st w :
  truthy r = None -> handle_result r st w = (Ok st, w).
Proof. intros H. unfold handle_result. destruct st. by rewrite H. Qed.

Lemma pool_call_worker pl p out w :
  exists w1,
    ledger w1 = ledger w
    /\ ((pool_call (process_single_pdf pl) (p, out) w
         = (Ok (Some (path_name p)), w1)
         /\ trace w1 = trace w ++ [Complete (p, out) (Some (path_name p))])
        \/ (exists e,
              pool_call (process_single_pdf pl) (p, out) w = (Ok None, w1)
              /\ trace w1 = trace w ++ [Print (FailedLine (path_name p) e);
                                        Complete (p, out) None])).
Proof.
  destruct (process_single_pdf_cases pl p out w)
    as (w1 & Hl & [[E Ht] | (e & E & Ht)]);
    unfold pool_call; rewrite (bind_Ok _ _ _ _ _ E); eexists;
    (split; [| first [left; split; [reflexivity |]
                     | right; exists e; split; [reflexivity |]]]);
    simpl; rewrite ?Ht, <- ?app_assoc; done.
Qed.

Lemma imap_loop_trace pl order : forall S succ w,
  writable (ledger w) ->
  exists tr S' w',
    imap_loop pl order (S, succ) w = (Ok (S', succ ++ successes tr), w')
    /\ trace w' = trace w ++ tr
    /\ loop_trace S order tr S'
    /\ ledger w' = match successes tr with
                   | [] => ledger w
                   | _ => Array (sorted (elements S'))
                   end.
Proof.
  induction order as [|[p out] order IH]; intros S succ w Hw.
  - exists [], S, w. rewrite !app_nil_r. repeat split; constructor.
  - cbn [imap_loop].
    destruct (pool_call_worker pl p out w)
      as (w1 & Hl & [[E Ht] | (e & E & Ht)]);
      rewrite (bind_Ok _ _ _ _ _ E); cbv beta.
    + (* the worker returned the name of the file *)
      destruct (decide (path_name p = "")) as [En|En].
      * assert (truthy (Some (path_name p)) = None) as Hf by (by rewrite En).
        rewrite (bind_Ok _ _ _ _ _ (handle_result_falsy _ (S, succ) w1 Hf));
          cbv beta.
        destruct (IH S succ w1) as (tr & S' & w' & Hrun & Htr & Hlt & Hled);
          [by rewrite Hl |].
        exists (Complete (p, out) (Some (path_name p)) :: tr), S', w'.
        rewrite successes_cons_Complete, En. simpl.
        split; [done |]. split; [| split].
        -- rewrite Htr, Ht, En. by rewrite <- app_assoc.
        -- by apply (loop_unnamed S (p, out)).
        -- by rewrite Hled, Hl.
      * assert (writable (ledger w1)) as Hw1 by (by rewrite Hl).
        rewrite (bind_Ok _ _ _ _ _ (handle_result_truthy _ S succ w1 En Hw1));
          cbv beta.
        set (S1 := {[ path_name p ]} ∪ S).
        match goal with |- context [imap_loop _ _ _ ?w2] =>
          destruct (IH S1 (succ ++ [path_name p]) w2)
            as (tr & S' & w' & Hrun & Htr & Hlt & Hled); [done |]
        end.
        exists (Complete (p, out) (Some (path_name p))
                :: Save (sorted (elements S1)) :: tr), S', w'.
        rewrite successes_cons_Complete, (truthy_Some _ En),
          successes_cons_Save.
        split; [| split; [| split]].
        -- rewrite Hrun. by rewrite <- app_assoc.
        -- rewrite Htr. simpl. rewrite Ht. by rewrite <- !app_assoc.
        -- by apply (loop_saved S (p, out)).
        -- rewrite Hled. simpl. destruct (successes tr) eqn:Es; [| done].
           apply loop_trace_set in Hlt. rewrite Es in Hlt. simpl in Hlt.
           rewrite (right_id_L ∅ (∪)) in Hlt. by rewrite Hlt.
    + (* the worker failed *)
      rewrite (bind_Ok _ _ _ _ _ (handle_result_falsy None (S, succ) w1 eq_refl));
        cbv beta.
      destruct (IH S succ w1) as (tr & S' & w' & Hrun & Htr & Hlt & Hled);
        [by rewrite Hl |].
      exists (Print (FailedLine (path_name p) e) :: Complete (p, out) None :: tr),
        S', w'.
      rewrite successes_cons_Print, successes_cons_Complete. simpl.
      split; [done |]. split; [| split].
      * rewrite Htr, Ht. by rewrite <- app_assoc.
      * by apply (loop_failed S (p, out)).
      * by rewrite Hled, Hl.
Qed.

(** ** The runner *)

Lemma fs_only_path_glob dir pat : fs_only (path_glob dir pat).
Proof. intros w. done. Qed.

Lemma fs_only_load_processed_files : fs_only load_processed_files.
Proof.
  intros w. destruct (load_processed_files w) as [r w'] eqn:E.
  apply load_processed_files_same_world in E. by subst.
Qed.

Lemma fs_only_batch_scan pdf_dir output_dir :
  fs_only (batch_scan pdf_dir output_dir).
Proof.
  unfold batch_scan. cbv zeta.
  repeat first [apply fs_only_os_makedirs | apply fs_only_path_glob
               | apply fs_only_load_processed_files | apply fs_only_ret
               | apply fs_only_bind; [| intros ?]].
Qed.

Lemma batch_scan_Ok_inv pdf_dir output_dir w all S0 tasks w1 :
  batch_scan pdf_dir output_dir w = (Ok (all, S0, tasks), w1) ->
  makedirs_from [] output_dir (fs w) = Ok (fs w1)
  /\ ledger w1 = ledger w /\ trace w1 = trace w
  /\ all = glob_paths (fs w1) pdf_dir "*.pdf"
  /\ writable (ledger w)
  /\ S0 = ledger_set (ledger w)
  /\ tasks = make_tasks (unprocessed all S0) output_dir.
Proof.
  intros H.
  pose proof (fs_only_batch_scan pdf_dir output_dir w) as [Hl Ht].
  rewrite H in Hl, Ht. simpl in Hl, Ht.
  unfold batch_scan in H.
  apply bind_Ok_inv in H as ([] & wa & Hm & H).
  apply bind_Ok_inv in H as (all' & wb & Hg & H).
  apply bind_Ok_inv in H as (S' & wc & Hload & H).
  unfold ret in H. inversion H; subst; clear H.
  unfold path_glob in Hg. inversion Hg; subst; clear Hg.
  apply load_processed_files_Ok_inv in Hload as (-> & Hw & ->).
  unfold os_makedirs in Hm.
  destruct (makedirs_from [] output_dir (fs w)) as [f'|e] eqn:Em;
    inversion Hm; subst; clear Hm.
  simpl in *. done.
Qed.

Lemma batch_run sch pl pdf_dir output_dir max_workers w :
  exists r w',
    batch sch pl pdf_dir output_dir max_workers w = (r, w')
    /\ batch_outcome sch pdf_dir output_dir max_workers w r w'.
Proof.
  pose proof (fs_only_batch_scan pdf_dir output_dir w) as [Hl Ht].
  unfold batch.
  destruct (batch_scan pdf_dir output_dir w) as [[[[all S0] tasks]|e] w1] eqn:Es;
    simpl in Hl, Ht.
  - rewrite (bind_Ok _ _ _ _ _ Es); cbv beta iota.
    pose proof (batch_scan_Ok_inv _ _ _ _ _ _ _ Es) as (_ & _ & _ & _ & Hw & _).
    unfold print at 1. unfold bind at 1. unfold Pool.
    destruct (max_workers <? 1) eqn:Emw.
    + apply Z.ltb_lt in Emw. simpl. eexists _, _. split; [reflexivity |].
      eapply pool_raised; eauto; simpl; by rewrite ?Ht.
    + apply Z.ltb_ge in Emw. unfold bind at 1. unfold ret at 1.
      destruct (imap_loop_trace pl (completion sch tasks) S0 []
                  (emit (Print (FoundLine (length all) (size S0) (length tasks)))
                     w1))
        as (tr & S' & w3 & Hrun & Htr & Hlt & Hled); [simpl; by rewrite Hl |].
      rewrite (bind_Ok _ _ _ _ _ Hrun); cbv beta.
      assert (writable (ledger w3)) as Hw3.
      { rewrite Hled. destruct (successes tr); simpl; [by rewrite Hl | done]. }
      unfold print, bind at 1.
      rewrite save_processed_files_Ok by done. simpl.
      eexists _, _. split; [reflexivity |].
      eapply completed; eauto; simpl.
      rewrite Htr. simpl. rewrite Ht. by rewrite <- !app_assoc.
  - rewrite (bind_Raise _ _ _ _ _ Es). eexists _, _. split; [reflexivity |].
    by apply scan_raised.
Qed.

Lemma batch_completes sch pl pdf_dir output_dir max_workers w all S0 tasks wa :
  batch_scan pdf_dir output_dir w = (Ok (all, S0, tasks), wa) ->
  1 <= max_workers ->
  exists tr S' w',
    batch sch pl pdf_dir output_dir max_workers w = (Ok tt, w')
    /\ loop_trace S0 (completion sch tasks) tr S'
    /\ ledger w' = Array (sorted (elements S'))
    /\ trace w' = trace w
                  ++ Print (FoundLine (length all) (size S0) (length tasks))
                  :: tr
                  ++ [Print (DoneLine (length (successes tr)));
                      Save (sorted (elements S'))].
Proof.
  intros Hs Hmw.
  destruct (batch_run sch pl pdf_dir output_dir max_workers w)
    as (r & w' & Hb & Hout).
  inversion Hout as [e w1 Hs' | all' S1 tasks' w1 e w2 Hs' Hmw'
                    | all' S1 tasks' w1 tr S' w2 Hs' _ Hlt Hl Ht];
    rewrite Hs in Hs'; inversion Hs'; [lia |].
  exists tr, S', w'. by subst.
Qed.

Lemma batch_Ok_inv sch pl pdf_dir output_dir max_workers w w' :
  batch sch pl pdf_dir output_dir max_workers w = (Ok tt, w') ->
  exists all S0 tasks wa tr S',
    batch_scan pdf_dir output_dir w = (Ok (all, S0, tasks), wa)
    /\ 1 <= max_workers
    /\ loop_trace S0 (completion sch tasks) tr S'
    /\ ledger w' = Array (sorted (elements S'))
    /\ trace w' = trace w
                  ++ Print (FoundLine (length all) (size S0) (length tasks))
                  :: tr
                  ++ [Print (DoneLine (length (successes tr)));
                      Save (sorted (elements S'))].
Proof.
  intros Hb.
  destruct (batch_run sch pl pdf_dir output_dir max_workers w)
    as (r & w2 & E & Hout).
  rewrite Hb in E. inversion E; subst r w2; clear E.
  inversion Hout as [| | all S0 tasks wa tr S' w2 Hs Hmw Hlt Hl Ht].
  by exists all, S0, tasks, wa, tr, S'.
Qed.

(** ** What the traces of the loop say *)

Lemma pool_log_cons_Print x tr : pool_log (Print x :: tr) = pool_log tr.
Proof. reflexivity. Qed.
Lemma pool_log_cons_Save x tr : pool_log (Save x :: tr) = pool_log tr.
Proof. reflexivity. Qed.
Lemma pool_log_cons_Complete t r tr :
  pool_log (Complete t r :: tr) = (t, r) :: pool_log tr.
Proof. reflexivity. Qed.

Lemma loop_trace_pool_log S order tr S' :
  loop_trace S order tr S' -> map fst (pool_log tr) = order.
Proof.
  induction 1; simpl; rewrite ?pool_log_cons_Print, ?pool_log_cons_Complete,
    ?pool_log_cons_Save; simpl; by f_equal.
Qed.


Lemma failures_cons_Print x tr : failures (Print x :: tr) = failures tr.
Proof. reflexivity. Qed.
Lemma failures_cons_Save x tr : failures (Save x :: tr) = failures tr.
Proof. reflexivity. Qed.
Lemma failures_cons_Complete t r tr :
  failures (Complete t r :: tr)
  = match r with None => t :: failures tr | Some _ => failures tr end.
Proof. unfold failures. simpl. by destruct r. Qed.

(** Every task of the loop either contributes its name to the success
    tokens or is among the failures. *)
Lemma loop_trace_names S order tr S' :
  loop_trace S order tr S' ->
  Forall (fun t => task_name t ≠ "") order ->
  map task_name order ≡ₚ successes tr ++ map task_name (failures tr).
Proof.
  unfold task_name.
  induction 1 as [S | S t order tr S' e _ IH | S t order tr S' Hn _ IH
                 | S t order tr S' Hn _ IH]; intros Hne.
  - done.
  - apply Forall_cons in Hne as [_ Hne].
    rewrite successes_cons_Print, successes_cons_Complete,
      failures_cons_Print, failures_cons_Complete. simpl.
    rewrite (IH Hne). by rewrite Permutation_middle.
  - apply Forall_cons in Hne as [_ Hne].
    rewrite successes_cons_Complete, (truthy_Some _ Hn), successes_cons_Save,
      failures_cons_Complete, failures_cons_Save. simpl.
    by rewrite (IH Hne).
  - apply Forall_cons in Hne as [Hne _]. done.
Qed.







Lemma saves_immediate_nil : saves_immediate [].
Proof. intros [|] ? ? ? H; inversion H. Qed.

Lemma saves_immediate_cons y tr :
  (forall t name, y = Complete t (Some name) -> name ≠ "" ->
                  exists x tr3, tr = Save x :: tr3) ->
  saves_immediate tr -> saves_immediate (y :: tr).
Proof.
  intros Hy Htr [|y' tr1] t name tr2 E Hn; simpl in E; inversion E; subst.
  - by eapply Hy.
  - by eapply Htr.
Qed.

Lemma loop_trace_saves_immediate S order tr S' :
  loop_trace S order tr S' -> saves_immediate tr.
Proof.
  induction 1 as [S | S t order tr S' e _ IH | S t order tr S' Hn _ IH
                 | S t order tr S' Hn _ IH].
  - apply saves_immediate_nil.
  - apply saves_immediate_cons; [done |].
    apply saves_immediate_cons; [done | done].
  - apply saves_immediate_cons; [eauto |].
    apply saves_immediate_cons; [done | done].
  - apply saves_immediate_cons; [| done].
    intros t' name E Hne. inversion E; subst. done.
Qed.


(** ** The tasks of a run *)

Lemma elem_of_make_tasks all S0 output_dir t :
  t ∈ make_tasks (unprocessed all S0) output_dir
  <-> snd t = output_dir /\ fst t ∈ all /\ task_name t ∉ S0.
Proof.
  unfold make_tasks, unprocessed, task_name.
  rewrite list_elem_of_fmap. setoid_rewrite list_elem_of_filter. split.
  - intros (p & -> & Hn & Hin). done.
  - intros (Ho & Hin & Hn). exists (fst t). destruct t; simpl in *; subst. done.
Qed.

Lemma NoDup_make_tasks all S0 output_dir :
  NoDup all -> NoDup (make_tasks (unprocessed all S0) output_dir).
Proof.
  intros H. apply NoDup_fmap_2; [| by apply NoDup_filter].
  intros p q E. by inversion E.
Qed.

Lemma make_tasks_names all S0 output_dir :
  map task_name (make_tasks (unprocessed all S0) output_dir)
  = filter (fun n => n ∉ S0) (map path_name all).
Proof.
  unfold make_tasks, unprocessed, task_name.
  induction all as [|p all IH]; [done |].
  simpl. rewrite !filter_cons. destruct (decide (path_name p ∉ S0)).
  - simpl. by rewrite IH.
  - done.
Qed.

(** The tasks of a scan: one per enumerated file whose name is not in the
    loaded set, with distinct non-empty names. *)
Lemma batch_scan_tasks pdf_dir output_dir w all S0 tasks w1 :
  batch_scan pdf_dir output_dir w = (Ok (all, S0, tasks), w1) ->
  NoDup tasks
  /\ NoDup (map task_name tasks)
  /\ Forall (fun t => task_name t ≠ "") tasks
  /\ (forall t, t ∈ tasks
                <-> snd t = output_dir /\ fst t ∈ all /\ task_name t ∉ S0).
Proof.
  intros (_ & _ & _ & -> & _ & _ & ->)%batch_scan_Ok_inv.
  split; [apply NoDup_make_tasks, NoDup_glob_paths |].
  split; [rewrite make_tasks_names; apply NoDup_filter, NoDup_glob_names |].
  split; [| intros t; apply elem_of_make_tasks].
  apply Forall_forall. intros t (_ & Hin & _)%elem_of_make_tasks.
  by eapply glob_pdf_name_nonempty.
Qed.

(** The projections of the trace of a completed run. *)
Lemma run_trace_pool_log x tr y z :
  pool_log (Print x :: tr ++ [Print y; Save z]) = pool_log tr.
Proof.
  rewrite pool_log_cons_Print, pool_log_app. simpl. apply app_nil_r.
Qed.

Lemma run_trace_successes x tr y z :
  successes (Print x :: tr ++ [Print y; Save z]) = successes tr.
Proof. unfold successes. by rewrite run_trace_pool_log. Qed.

Lemma run_trace_failures x tr y z :
  failures (Print x :: tr ++ [Print y; Save z]) = failures tr.
Proof. unfold failures. by rewrite run_trace_pool_log. Qed.






Lemma loop_trace_tokens S order tr S' :
  loop_trace S order tr S' ->
  Forall (fun t => task_name t ≠ "") order ->
  forall t name, Complete t (Some name) ∈ tr ->
                 name = task_name t /\ name ≠ "".
Proof.
  unfold task_name.
  induction 1 as [S | S t order tr S' e _ IH | S t order tr S' Hn _ IH
                 | S t order tr S' Hn _ IH];
    intros Hne t' name Hin.
  - by apply elem_of_nil in Hin.
  - apply Forall_cons in Hne as [_ Hne].
    apply elem_of_cons in Hin as [E | Hin]; [done |].
    apply elem_of_cons in Hin as [E | Hin]; [done | by apply IH].
  - apply Forall_cons in Hne as [_ Hne].
    apply elem_of_cons in Hin as [E | Hin]; [by inversion E; subst |].
    apply elem_of_cons in Hin as [E | Hin]; [done | by apply IH].
  - by apply Forall_cons in Hne as [Hne _].
Qed.


(** C9. Every run of [batch] that completes ends with a write of the
    ledger file: the last event of the run is that write, it writes the
    loaded set and the success tokens of the run, and the file holds this
    array afterwards.  This is so when nothing was dispatched or nothing
    succeeded: then the array is the loaded set, and it is the empty array
    when there was no ledger file before. *)
Theorem batch_completed_writes_ledger (sch : Schedule) (pl : Pipeline)
  (pdf_dir output_dir : path) (max_workers : Z) (w w' : world) :
  batch sch pl pdf_dir output_dir max_workers w = (Ok tt, w') ->
  exists tr names,
    trace w' = trace w ++ tr ++ [Save names]
    /\ ledger w' = Array names
    /\ names = sorted (elements
                 (ledger_set (ledger w) ∪ list_to_set (successes tr)))
    /\ (successes tr = [] ->
        names = sorted (elements (ledger_set (ledger w))))
    /\ (successes tr = [] -> ledger w = NoFile -> ledger w' = Array []).
Proof.
  intros Hb.
  destruct (batch_run sch pl pdf_dir output_dir max_workers w)
    as (r & w2 & E & Hout).
  rewrite Hb in E. inversion E; subst r w2; clear E.
  inversion Hout as [| | all S0 tasks w1 tr S' w2 Hs Hmw Hlt Hl Ht]; subst.
  apply batch_scan_Ok_inv in Hs as (_ & _ & _ & _ & _ & HS & _).
  pose proof (loop_trace_set _ _ _ _ Hlt) as HS'.
  exists (Print (FoundLine (length all) (size S0) (length tasks))
          :: tr ++ [Print (DoneLine (length (successes tr)))]),
    (sorted (elements S')).
  assert (successes
            (Print (FoundLine (length all) (size S0) (length tasks))
             :: tr ++ [Print (DoneLine (length (successes tr)))])
          = successes tr) as Hsucc.
  { rewrite successes_cons_Print, successes_app. apply app_nil_r. }
  rewrite Hsucc.
  assert (S' = ledger_set (ledger w) ∪ list_to_set (successes tr)) as HS''
    by (by rewrite <- HS).
  split; [| split; [done | split; [by rewrite HS'' | split]]].
  - rewrite Ht. simpl. by rewrite <- app_assoc.
  - intros Hnil. rewrite HS'', Hnil. simpl. by rewrite (right_id_L ∅ (∪)).
  - intros Hnil Hno. rewrite Hl, HS'', Hnil, Hno. simpl.
    rewrite (right_id_L ∅ (∪)). by rewrite elements_empty.
Qed.

Lemma batch_completed_writes_ledger_witness :
  exists tr names,
    trace (snd (batch fifo demo_pipeline ["in"] ["out"] 2 demo_world))
    = trace demo_world ++ tr ++ [Save names]
    /\ ledger (snd (batch fifo demo_pipeline ["in"] ["out"] 2 demo_world))
       = Array names
    /\ names = sorted (elements
                 (ledger_set (ledger demo_world) ∪ list_to_set (successes tr)))
    /\ (successes tr = [] ->
        names = sorted (elements (ledger_set (ledger demo_world))))
    /\ (successes tr = [] -> ledger demo_world = NoFile ->
        ledger (snd (batch fifo demo_pipeline ["in"] ["out"] 2 demo_world))
        = Array []).
Proof.
  apply (batch_completed_writes_ledger fifo demo_pipeline ["in"] ["out"] 2
           demo_world).
  vm_compute. reflexivity.
Defined.

(** C6. When the scan of a run succeeds and the pool can be created, the
    tasks the pool runs are, up to order, the tasks built by the scan:
    one task per enumerated file whose name is not in the loaded set, each
    paired with the output directory, none twice.  A file whose name is in
    the loaded set is not dispatched. *)
Theorem batch_dispatch_filter (sch : Schedule) (pl : Pipeline)
  (pdf_dir output_dir : path) (max_workers : Z) (w w1 : world)
  (all : list path) (S0 : gset string) (tasks : list task) :
  batch_scan pdf_dir output_dir w = (Ok (all, S0, tasks), w1) ->
  1 <= max_workers ->
  exists tr,
    trace (snd (batch sch pl pdf_dir output_dir max_workers w)) = trace w ++ tr
    /\ map fst (pool_log tr) ≡ₚ tasks
    /\ tasks = map (fun p => (p, output_dir))
                 (filter (fun p => path_name p ∉ S0) all)
    /\ all = glob_paths (fs w1) pdf_dir "*.pdf"
    /\ S0 = ledger_set (ledger w)
    /\ NoDup (map fst (pool_log tr))
    /\ (forall p o, (p, o) ∈ map fst (pool_log tr)
                    <-> o = output_dir /\ p ∈ all /\ path_name p ∉ S0).
Proof.
  intros Hs Hmw.
  destruct (batch_run sch pl pdf_dir output_dir max_workers w)
    as (r & w' & -> & Hout). simpl.
  pose proof (batch_scan_tasks _ _ _ _ _ _ _ Hs) as (Hnd & _ & _ & Hin).
  pose proof (batch_scan_Ok_inv _ _ _ _ _ _ _ Hs)
    as (_ & _ & _ & Hall & _ & HS & Htasks).
  inversion Hout as [e w2 Hs' | all' S1 tasks' w2 e w3 Hs' Hmw'
                    | all' S1 tasks' w2 tr S' w3 Hs' _ Hlt Hl Ht];
    rewrite Hs in Hs'; inversion Hs'; subst all' S1 tasks' w2; [lia |].
  eexists. split; [exact Ht |].
  rewrite run_trace_pool_log, (loop_trace_pool_log _ _ _ _ Hlt).
  split; [apply completion_perm |].
  split; [done |]. split; [done |]. split; [done |]. split.
  - by rewrite completion_perm.
  - intros p o. rewrite completion_perm. apply (Hin (p, o)).
Qed.

Lemma batch_dispatch_filter_witness :
  exists tr,
    trace (snd (batch lifo demo_pipeline ["in"] ["out"] 2 demo_world))
    = trace demo_world ++ tr
    /\ map fst (pool_log tr)
       ≡ₚ [(["in"; "b.pdf"], ["out"]); (["in"; "a.pdf"], ["out"])].
Proof.
  destruct (batch_dispatch_filter lifo demo_pipeline ["in"] ["out"] 2
              demo_world
              (snd (batch_scan ["in"] ["out"] demo_world))
              [["in"; "b.pdf"]; ["in"; "a.pdf"]] ∅
              [(["in"; "b.pdf"], ["out"]); (["in"; "a.pdf"], ["out"])])
    as (tr & Ht & Hp & _).
  - vm_compute. reflexivity.
  - lia.
  - exists tr. split; assumption.
Defined.


Lemma elem_of_failures t tr : t ∈ failures tr <-> (t, None) ∈ pool_log tr.
Proof.
  unfold failures. rewrite list_elem_of_omap. split.
  - intros ([t' [r|]] & Hin & E); inversion E; by subst.
  - intros H. by exists (t, None).
Qed.

Lemma elem_of_successes_pool_log n tr :
  n ∈ successes tr -> exists t, (t, Some n) ∈ pool_log tr.
Proof.
  unfold successes. rewrite list_elem_of_omap.
  intros ([t [r|]] & Hin & E); simpl in E; [| done].
  destruct (String.eqb r ""); inversion E; subst. eauto.
Qed.

Lemma NoDup_fmap_inj_on {A B} (f : A -> B) (l : list A) x y :
  NoDup (map f l) -> x ∈ l -> y ∈ l -> f x = f y -> x = y.
Proof.
  induction l as [|a l IH]; intros Hnd Hx Hy E.
  - by apply elem_of_nil in Hx.
  - simpl in Hnd. apply NoDup_cons in Hnd as [Ha Hnd].
    apply elem_of_cons in Hx as [-> | Hx]; apply elem_of_cons in Hy as [-> | Hy].
    + done.
    + destruct Ha. rewrite E. by apply list_elem_of_fmap_2.
    + destruct Ha. rewrite <- E. by apply list_elem_of_fmap_2.
    + by apply IH.
Qed.



(** ** Directories are never removed *)

Lemma keeps_dirs_same_fs {A} (m : M A) :
  (forall w, fs (snd (m w)) = fs w) -> keeps_dirs m.
Proof. intros H w q Hq. by rewrite H. Qed.

Lemma keeps_dirs_bind {A B} (m : M A) (k : A -> M B) :
  keeps_dirs m -> (forall a, keeps_dirs (k a)) -> keeps_dirs (bind m k).
Proof.
  intros Hm Hk w q Hq. unfold bind. specialize (Hm w q Hq).
  destruct (m w) as [[a|e] w1]; simpl in *; [by apply Hk | done].
Qed.

Lemma keeps_dirs_try_except {A} (m : M A) (h : exn -> M A) :
  keeps_dirs m -> (forall e, keeps_dirs (h e)) -> keeps_dirs (try_except m h).
Proof.
  intros Hm Hh w q Hq. unfold try_except. specialize (Hm w q Hq).
  destruct (m w) as [[a|e] w1]; simpl in *; [done | by apply Hh].
Qed.

Lemma makedirs_from_Ok base rest f f' :
  makedirs_from base rest f = Ok f' ->
  (forall q x, f !! q = Some x -> f' !! q = Some x)
  /\ (forall pre c suf, rest = pre ++ c :: suf ->
                        f' !! (base ++ pre ++ [c]) = Some Dir).
Proof.
  revert base f. induction rest as [|c rest IH]; intros base f H; simpl in H.
  - inversion H; subst. split; [done |]. intros [|] ? ? E; inversion E.
  - destruct (f !! (base ++ [c])) as [[|d]|] eqn:Eq; [| done |].
    + destruct (IH _ _ H) as [Hkeep Hdirs]. split; [done |].
      intros [|c' pre] c0 suf E; simpl in E; inversion E; subst.
      * by apply Hkeep.
      * specialize (Hdirs pre c0 suf eq_refl).
        by rewrite <- app_assoc in Hdirs.
    + destruct (IH _ _ H) as [Hkeep Hdirs]. split.
      * intros q x Hq. apply Hkeep. rewrite lookup_insert_ne; [done |].
        intros E. subst q. congruence.
      * intros [|c' pre] c0 suf E; simpl in E; inversion E; subst.
        -- apply Hkeep. apply lookup_insert_eq.
        -- specialize (Hdirs pre c0 suf eq_refl).
           by rewrite <- app_assoc in Hdirs.
Qed.

Lemma makedirs_from_present base rest f :
  (forall pre c suf, rest = pre ++ c :: suf ->
                     f !! (base ++ pre ++ [c]) = Some Dir) ->
  makedirs_from base rest f = Ok f.
Proof.
  revert base. induction rest as [|c rest IH]; intros base H; simpl; [done |].
  pose proof (H [] c rest eq_refl) as Hc. simpl in Hc. rewrite Hc. apply IH.
  intros pre c0 suf ->. rewrite <- app_assoc. by apply (H (c :: pre) c0 suf).
Qed.

Lemma keeps_dirs_os_makedirs p : keeps_dirs (os_makedirs p).
Proof.
  intros w q Hq. unfold os_makedirs.
  destruct (makedirs_from [] p (fs w)) as [f'|e] eqn:E; simpl; [| done].
  by apply (makedirs_from_Ok _ _ _ _ E).
Qed.

Lemma keeps_dirs_write_file p d : keeps_dirs (write_file p d).
Proof.
  intros w q Hq. unfold write_file.
  destruct (is_dir (fs w) p) eqn:Ed; [done |].
  destruct (is_dir (fs w) (path_parent p));
    [| by destruct (exists_in (fs w) (path_parent p))].
  simpl.
  rewrite lookup_insert_ne; [done |]. intros ->.
  unfold is_dir in Ed. rewrite Hq in Ed. by destruct q.
Qed.

Lemma keeps_dirs_read_file p : keeps_dirs (read_file p).
Proof.
  apply keeps_dirs_same_fs. intros w. unfold read_file.
  destruct p; [done |]. by destruct (fs w !! _) as [[]|].
Qed.

Create HintDb keeps_dirs.

#[local] Hint Resolve keeps_dirs_os_makedirs keeps_dirs_write_file
  keeps_dirs_read_file : keeps_dirs.
#[local] Hint Extern 1 (keeps_dirs (ret _)) =>
  apply keeps_dirs_same_fs; intros; reflexivity : keeps_dirs.
#[local] Hint Extern 1 (keeps_dirs (raise _)) =>
  apply keeps_dirs_same_fs; intros; reflexivity : keeps_dirs.
#[local] Hint Extern 1 (keeps_dirs (lift _)) =>
  apply keeps_dirs_same_fs; intros; reflexivity : keeps_dirs.
#[local] Hint Extern 1 (keeps_dirs (print _)) =>
  apply keeps_dirs_same_fs; intros; reflexivity : keeps_dirs.
#[local] Hint Extern 1 (keeps_dirs (os_path_exists _)) =>
  apply keeps_dirs_same_fs; intros; reflexivity : keeps_dirs.
#[local] Hint Extern 1 (keeps_dirs (path_glob _ _)) =>
  apply keeps_dirs_same_fs; intros; reflexivity : keeps_dirs.

Ltac keeps_dirs_step :=
  match goal with
  | |- keeps_dirs (bind _ _) => apply keeps_dirs_bind; [| intros ?]
  | |- keeps_dirs (try_except _ _) => apply keeps_dirs_try_except; [| intros ?]
  | |- keeps_dirs (if ?b then _ else _) => destruct b
  | |- keeps_dirs (match ?x with OCR => _ | TXT => _ end) => destruct x
  | |- keeps_dirs _ => solve [auto with keeps_dirs]
  end.

Lemma keeps_dirs_write_images dir imgs : keeps_dirs (write_images dir imgs).
Proof.
  induction imgs as [|[name data] imgs IH]; simpl.
  - auto with keeps_dirs.
  - unfold writer_write. repeat keeps_dirs_step.
Qed.

#[local] Hint Resolve keeps_dirs_write_images : keeps_dirs.

Lemma keeps_dirs_process_single_pdf pl t : keeps_dirs (process_single_pdf pl t).
Proof.
  destruct t as [pdf_path output_root].
  unfold process_single_pdf, process_body, reader_read, analyse, run_pipe,
    draw_layout, draw_span, dump_md, dump_content_list, dump_middle_json,
    writer_write, shutil_copyfile.
  repeat keeps_dirs_step.
Qed.

Lemma keeps_dirs_save_processed_files S : keeps_dirs (save_processed_files S).
Proof.
  apply keeps_dirs_same_fs. intros w.
  unfold save_processed_files, write_ledger. by destruct (ledger w).
Qed.

Lemma keeps_dirs_load_processed_files : keeps_dirs load_processed_files.
Proof.
  apply keeps_dirs_same_fs. intros w.
  destruct (load_processed_files w) as [r w'] eqn:E.
  apply load_processed_files_same_world in E. by subst.
Qed.

#[local] Hint Resolve keeps_dirs_process_single_pdf
  keeps_dirs_save_processed_files keeps_dirs_load_processed_files : keeps_dirs.

Lemma keeps_dirs_imap_loop pl order : forall st, keeps_dirs (imap_loop pl order st).
Proof.
  induction order as [|t order IH]; intros st; simpl.
  - auto with keeps_dirs.
  - unfold pool_call, handle_result. destruct st as [S succ].
    repeat keeps_dirs_step.
    + apply keeps_dirs_same_fs. intros; reflexivity.
    + destruct (truthy _); repeat keeps_dirs_step.
Qed.

#[local] Hint Resolve keeps_dirs_imap_loop : keeps_dirs.

(** After a completed run the output directory is still there. *)
Lemma batch_keeps_output_dir sch pl pdf_dir output_dir max_workers w w1 :
  batch sch pl pdf_dir output_dir max_workers w = (Ok tt, w1) ->
  makedirs_from [] output_dir (fs w1) = Ok (fs w1).
Proof.
  intros H. unfold batch in H.
  apply bind_Ok_inv in H as ([[all S0] tasks] & wa & Hs & H).
  apply batch_scan_Ok_inv in Hs as (Hm & _).
  apply makedirs_from_Ok in Hm as [_ Hdirs].
  apply makedirs_from_present. intros pre c suf E.
  specialize (Hdirs pre c suf E).
  match type of H with ?k wa = _ =>
    assert (keeps_dirs k) as Hk
  end.
  { unfold Pool. repeat keeps_dirs_step. }
  specialize (Hk wa _ Hdirs). by rewrite H in Hk.
Qed.

Lemma batch_scan_Ok pdf_dir output_dir w f' :
  makedirs_from [] output_dir (fs w) = Ok f' ->
  loadable (ledger w) ->
  batch_scan pdf_dir output_dir w
  = (Ok (glob_paths f' pdf_dir "*.pdf", ledger_set (ledger w),
         make_tasks (unprocessed (glob_paths f' pdf_dir "*.pdf")
                       (ledger_set (ledger w))) output_dir),
     set_fs f' w).
Proof.
  intros Hm Hl. unfold batch_scan, bind, os_makedirs. rewrite Hm.
  unfold path_glob. simpl.
  destruct (ledger w) as [| | |names] eqn:E; try done.
  - rewrite (load_processed_files_NoFile (set_fs f' w)) by done. done.
  - rewrite (load_processed_files_Array names (set_fs f' w)) by done. done.
Qed.

(** C1, as the code has it.  Take a run of [batch] that completes and a
    second run on its final state that enumerates the same input files.
    The second run loads the set the first one saved: the loaded set of
    the first run and its success tokens, which are file names, the key
    of the filter.  The second run completes and dispatches exactly the
    tasks whose worker failed in the first run; a file that succeeded is
    not dispatched again.  When no task of the first run failed, the
    second run dispatches nothing and leaves the ledger file as the first
    run left it. *)
Theorem batch_second_run (sch1 sch2 : Schedule) (pl : Pipeline)
  (pdf_dir output_dir : path) (max_workers : Z) (w w1 wa : world)
  (all : list path) (S0 : gset string) (tasks : list task) :
  batch sch1 pl pdf_dir output_dir max_workers w = (Ok tt, w1) ->
  batch_scan pdf_dir output_dir w = (Ok (all, S0, tasks), wa) ->
  glob_paths (fs w1) pdf_dir "*.pdf" ≡ₚ all ->
  exists tr1 tr2 w2,
    trace w1 = trace w ++ tr1
    /\ ledger_set (ledger w1) = S0 ∪ list_to_set (successes tr1)
    /\ (forall t n, (t, Some n) ∈ pool_log tr1 ->
                    n = path_name (fst t) /\ n ∈ successes tr1)
    /\ batch sch2 pl pdf_dir output_dir max_workers w1 = (Ok tt, w2)
    /\ trace w2 = trace w1 ++ tr2
    /\ NoDup (map fst (pool_log tr2))
    /\ (forall t, t ∈ map fst (pool_log tr2) <-> t ∈ failures tr1)
    /\ (forall t n, (t, Some n) ∈ pool_log tr1 ->
                    t ∉ map fst (pool_log tr2))
    /\ (failures tr1 = [] -> pool_log tr2 = [] /\ ledger w2 = ledger w1).
Proof.
  intros Hb Hs Hun.
  pose proof (batch_keeps_output_dir _ _ _ _ _ _ _ Hb) as Hdir.
  (* the first run *)
  destruct (batch_Ok_inv _ _ _ _ _ _ _ Hb)
    as (all' & S0' & tasks' & wa' & tr & S' & Hs' & Hmw & Hlt & Hl & Ht).
  rewrite Hs in Hs'. inversion Hs'; subst all' S0' tasks' wa'; clear Hs'.
  pose proof (batch_scan_tasks _ _ _ _ _ _ _ Hs) as (Hnd & Hndn & Hne & Hin).
  pose proof (completion_perm sch1 tasks) as Hperm.
  rewrite <- Hperm in Hnd, Hndn, Hne.
  pose proof (loop_trace_pool_log _ _ _ _ Hlt) as Hlog.
  pose proof (loop_trace_names _ _ _ _ Hlt Hne) as Hnames.
  pose proof (loop_trace_set _ _ _ _ Hlt) as HS'.
  assert (NoDup (successes tr ++ map task_name (failures tr))) as Hnd2
    by (by rewrite <- Hnames).
  apply NoDup_app in Hnd2 as (_ & Hdisj & _).
  assert (forall t, t ∈ failures tr -> t ∈ completion sch1 tasks) as Hfo.
  { intros t Ht'. rewrite <- Hlog. apply list_elem_of_fmap.
    exists (t, None). split; [done |]. by apply elem_of_failures. }
  (* the second run *)
  assert (ledger_set (ledger w1) = S') as HS1
    by (rewrite Hl; apply sorted_elements_set).
  assert (batch_scan pdf_dir output_dir w1
          = (Ok (glob_paths (fs w1) pdf_dir "*.pdf", S',
                 make_tasks (unprocessed (glob_paths (fs w1) pdf_dir "*.pdf") S')
                   output_dir), w1)) as Hs2.
  { rewrite (batch_scan_Ok _ _ _ _ Hdir) by (by rewrite Hl).
    rewrite HS1. by destruct w1. }
  destruct (batch_completes sch2 pl _ _ _ _ _ _ _ _ Hs2 Hmw)
    as (tr2 & S2' & w2 & Hb2 & Hlt2 & Hl2 & Ht2).
  set (all2 := glob_paths (fs w1) pdf_dir "*.pdf") in *.
  set (tasks2 := make_tasks (unprocessed all2 S') output_dir) in *.
  pose proof (loop_trace_pool_log _ _ _ _ Hlt2) as Hlog2.
  assert (forall t, t ∈ tasks2 <-> t ∈ failures tr) as Htasks2.
  { intros t. unfold tasks2. rewrite elem_of_make_tasks.
    rewrite Hun, HS', elem_of_union, elem_of_list_to_set. split.
    - intros (Ho & Ha & Hn).
      assert (t ∈ completion sch1 tasks) as Hto.
      { rewrite Hperm. apply Hin. split; [done |]. split; [done |]. tauto. }
      assert (task_name t ∈ map task_name (completion sch1 tasks)) as Hn'
        by (by apply list_elem_of_fmap_2).
      rewrite Hnames in Hn'. apply elem_of_app in Hn' as [Hn' | Hn'];
        [tauto |].
      apply list_elem_of_fmap in Hn' as (t' & En & Ht').
      assert (t = t') as ->; [| done].
      eapply (NoDup_fmap_inj_on task_name); eauto.
    - intros Hf. pose proof (Hfo _ Hf) as Hto. rewrite Hperm in Hto.
      apply Hin in Hto as (Ho & Ha & Hn). split; [done |]. split; [done |].
      intros [? | Hsucc]; [done |].
      apply (Hdisj _ Hsucc). by apply list_elem_of_fmap_2. }
  exists (Print (FoundLine (length all) (size S0) (length tasks))
          :: tr ++ [Print (DoneLine (length (successes tr)));
                    Save (sorted (elements S'))]).
  exists (Print (FoundLine (length all2) (size S') (length tasks2))
          :: tr2 ++ [Print (DoneLine (length (successes tr2)));
                     Save (sorted (elements S2'))]), w2.
  rewrite run_trace_successes, run_trace_failures, !run_trace_pool_log, Hlog2.
  split; [exact Ht |]. split; [by rewrite HS1 |].
  split.
  { intros t n Hsome.
    assert (Complete t (Some n) ∈ tr) as Hc.
    { unfold pool_log in Hsome. apply list_elem_of_omap in Hsome
        as ([] & Hin' & E); inversion E; by subst. }
    destruct (loop_trace_tokens _ _ _ _ Hlt Hne _ _ Hc) as [-> Hn].
    split; [done |]. unfold successes. apply list_elem_of_omap.
    exists (t, Some (task_name t)). split; [done |]. by apply truthy_Some. }
  split; [exact Hb2 |].
  split; [exact Ht2 |].
  split; [| split; [| split]].
  - rewrite completion_perm. apply NoDup_make_tasks, NoDup_glob_paths.
  - intros t. rewrite completion_perm. apply Htasks2.
  - intros t n Hsome. rewrite completion_perm, Htasks2. intros Hf.
    assert (NoDup (map fst (pool_log tr))) as Hndl by (by rewrite Hlog).
    apply elem_of_failures in Hf.
    assert ((t, Some n) = (t, None)); [| done].
    eapply (NoDup_fmap_inj_on fst); eauto.
  - intros Hnil.
    assert (tasks2 = []) as Hempty.
    { apply elem_of_nil_inv. intros t Ht'. apply Htasks2 in Ht'.
      rewrite Hnil in Ht'. by apply elem_of_nil in Ht'. }
    rewrite Hempty in Hlt2.
    assert (completion sch2 [] = []) as Hc
      by (apply Permutation_nil_r; by rewrite completion_perm).
    rewrite Hc in Hlt2. inversion Hlt2; subst. split; [done |].
    by rewrite Hl, Hl2.
Qed.

Lemma batch_second_run_witness :
  exists w2,
    batch lifo demo_pipeline ["in"] ["out"] 2
      (snd (batch fifo demo_pipeline ["in"] ["out"] 2 demo_world))
    = (Ok tt, w2).
Proof.
  destruct (batch_second_run fifo lifo demo_pipeline ["in"] ["out"] 2
              demo_world
              (snd (batch fifo demo_pipeline ["in"] ["out"] 2 demo_world))
              (snd (batch_scan ["in"] ["out"] demo_world))
              [["in"; "b.pdf"]; ["in"; "a.pdf"]] ∅
              [(["in"; "b.pdf"], ["out"]); (["in"; "a.pdf"], ["out"])])
    as (tr1 & tr2 & w2 & _ & _ & _ & Hb & _).
  - vm_compute. reflexivity.
  - vm_compute. reflexivity.
  - vm_compute. reflexivity.
  - exists w2. exact Hb.
Defined.

(** C1 fails as stated.  In [demo_world] the input directory holds
    [a.pdf], which the pipeline accepts, and [b.pdf], on which it raises.
    Both runs complete and the input directory is the same before the
    second run as before the first, yet the second run dispatches [b.pdf]
    again: it does not dispatch zero tasks, and the worker runs twice on
    [b.pdf] across the two runs. *)
Lemma batch_second_run_redispatches :
  let run1 := batch fifo demo_pipeline ["in"] ["out"] 2 demo_world in
  let run2 := batch fifo demo_pipeline ["in"] ["out"] 2 (snd run1) in
  let b_task := (["in"; "b.pdf"], ["out"]) in
  fst run1 = Ok tt
  /\ fst run2 = Ok tt
  /\ subtree (fs (snd run1)) ["in"] = subtree (fs demo_world) ["in"]
  /\ pool_log (drop (length (trace (snd run1))) (trace (snd run2)))
     = [(b_task, None)]
  /\ filter (fun x => fst x = b_task) (pool_log (trace (snd run2)))
     = [(b_task, None); (b_task, None)].
Proof. vm_compute. repeat split; reflexivity. Qed.

(** ** Names and stems *)

Lemma string_length_append s1 s2 :
  String.length (s1 +:+ s2) = (String.length s1 + String.length s2)%nat.
Proof.
  induction s1 as [|c s1 IH]; [done |].
  rewrite append_cons. simpl. by rewrite IH.
Qed.

Lemma substring_append s1 s2 :
  String.substring 0 (String.length s1) (s1 +:+ s2) = s1.
Proof.
  induction s1 as [|c s1 IH].
  - rewrite append_nil_l. by destruct s2.
  - rewrite append_cons. simpl. by rewrite IH.
Qed.

Lemma rfind_from_append c s1 s2 i last :
  rfind_from c (s1 +:+ s2) i last
  = rfind_from c s2 (i + Z.of_nat (String.length s1)) (rfind_from c s1 i last).
Proof.
  revert i last. induction s1 as [|a s1 IH]; intros i last.
  - rewrite append_nil_l. simpl. by rewrite Z.add_0_r.
  - rewrite append_cons. cbn [rfind_from String.length]. rewrite IH.
    f_equal. lia.
Qed.

(** The stem of [doc.pdf] is [doc]. *)
Lemma path_stem_pdf (p : path) doc :
  path_name p = doc +:+ ".pdf" -> doc ≠ "" -> path_stem p = doc.
Proof.
  intros Hn Hd. unfold path_stem, rfind. rewrite Hn, rfind_from_append.
  cbn [rfind_from]. simpl Ascii.eqb. cbv iota.
  rewrite string_length_append. simpl (String.length ".pdf").
  assert (0 < Z.of_nat (String.length doc)) as Hpos.
  { destruct doc; [done |]. simpl. lia. }
  replace (0 <? 0 + Z.of_nat (String.length doc)) with true
    by (symmetry; apply Z.ltb_lt; lia).
  replace (0 + Z.of_nat (String.length doc)
           <? Z.of_nat (String.length doc + 4) - 1) with true
    by (symmetry; apply Z.ltb_lt; lia).
  simpl andb. cbv iota.
  replace (Z.to_nat (0 + Z.of_nat (String.length doc)))
    with (String.length doc) by lia.
  apply substring_append.
Qed.

(** ** What a successful worker leaves behind *)

Lemma write_file_Ok_inv p d w w' :
  write_file p d w = (Ok tt, w') -> fs w' = <[p := File d]> (fs w).
Proof.
  unfold write_file. destruct (is_dir (fs w) p); [done |].
  destruct (is_dir (fs w) (path_parent p));
    [| by destruct (exists_in (fs w) (path_parent p))].
  intros H. by inversion H.
Qed.

Lemma export_Ok_inv (r : result bytes) p w w' :
  (data <- lift r ;; write_file p data) w = (Ok tt, w') ->
  exists d, r = Ok d /\ fs w' = <[p := File d]> (fs w).
Proof.
  intros H. apply bind_Ok_inv in H as (d & w1 & Hl & Hw).
  unfold lift in Hl. inversion Hl; subst.
  exists d. split; [done |]. by apply write_file_Ok_inv.
Qed.

Lemma shutil_copyfile_Ok_inv src dst w w' d :
  fs w !! src = Some (File d) ->
  shutil_copyfile src dst w = (Ok tt, w') ->
  src ≠ dst /\ fs w' = <[dst := File d]> (fs w).
Proof.
  intros Hsrc H. unfold shutil_copyfile in H.
  apply bind_Ok_inv in H as (same & w1 & Hsame & H).
  apply bind_Ok_inv in Hsame as (e & w2 & He & Hsame).
  unfold os_path_exists in He. inversion He; subst; clear He.
  unfold ret in Hsame. inversion Hsame; subst; clear Hsame.
  assert (exists_in (fs w1) src = true) as Hex.
  { unfold exists_in. rewrite Hsrc. by destruct src. }
  rewrite Hex in H. simpl in H. destruct (decide (src = dst)) as [->|Hne].
  - by rewrite bool_decide_eq_true_2 in H.
  - rewrite bool_decide_eq_false_2 in H by done.
    apply bind_Ok_inv in H as (data & w3 & Hr & Hw).
    unfold read_file in Hr. destruct src as [|c src]; [done |].
    rewrite Hsrc in Hr. inversion Hr; subst data w3.
    split; [done |]. by apply write_file_Ok_inv.
Qed.

Lemma append_inj_l (s a b : string) : s +:+ a = s +:+ b -> a = b.
Proof. apply (inj (String.append s)). Qed.

Ltac different_paths :=
  let E := fresh "E" in
  intros E; apply app_inv_head in E; inversion E;
  match goal with
  | H : _ +:+ _ = _ +:+ _ |- _ => apply append_inj_l in H; discriminate H
  end.

(** C8.  When [process_single_pdf] returns a success token for an input
    file named [doc.pdf], then, the exports of the analysis library being
    as the spec describes them, the directory [doc] under the output root
    holds the files [doc.md], [doc_layout.pdf], [doc_spans.pdf],
    [doc_content_list.json] and [doc_middle.json], and [markdowns/doc.md]
    is a file with the same bytes as [doc/doc.md]. *)
Theorem process_single_pdf_outputs (pl : Pipeline)
  (pdf_path output_root : path) (doc token : string) (w w' : world) :
  path_name pdf_path = doc +:+ ".pdf" -> doc ≠ "" ->
  process_single_pdf pl (pdf_path, output_root) w = (Ok (Some token), w') ->
  token = path_name pdf_path
  /\ exists md layout spans contents middle,
       fs w' !! (output_root ++ [doc; doc +:+ ".md"]) = Some (File md)
       /\ fs w' !! (output_root ++ [doc; doc +:+ "_layout.pdf"])
          = Some (File layout)
       /\ fs w' !! (output_root ++ [doc; doc +:+ "_spans.pdf"])
          = Some (File spans)
       /\ fs w' !! (output_root ++ [doc; doc +:+ "_content_list.json"])
          = Some (File contents)
       /\ fs w' !! (output_root ++ [doc; doc +:+ "_middle.json"])
          = Some (File middle)
       /\ fs w' !! (output_root ++ ["markdowns"; doc +:+ ".md"])
          = Some (File md).
Proof.
  intros Hname Hdoc H.
  unfold process_single_pdf, try_except in H.
  destruct (process_body pl pdf_path output_root w) as [[r|e] w1] eqn:E;
    [| by inversion H].
  inversion H; subst r w1; clear H.
  unfold process_body in E. rewrite (path_stem_pdf _ _ Hname Hdoc) in E.
  apply bind_Ok_inv in E as (? & wa & _ & E).
  apply bind_Ok_inv in E as (? & wb & _ & E).
  apply bind_Ok_inv in E as (? & wc & _ & E).
  apply bind_Ok_inv in E as (pdf_bytes & wd & _ & E).
  apply bind_Ok_inv in E as (pr & w5 & _ & E).
  apply bind_Ok_inv in E as ([] & w6 & Hlayout & E).
  apply bind_Ok_inv in E as ([] & w7 & Hspans & E).
  apply bind_Ok_inv in E as ([] & w8 & Hmd & E).
  apply bind_Ok_inv in E as (found & w9 & Hfound & E).
  apply bind_Ok_inv in E as ([] & w10 & Hcopy & E).
  apply bind_Ok_inv in E as ([] & w11 & Hcl & E).
  apply bind_Ok_inv in E as ([] & w12 & Hmid & E).
  unfold ret in E. inversion E; subst token w12; clear E.
  split; [done |].
  apply export_Ok_inv in Hlayout as (layout & _ & Hf6).
  apply export_Ok_inv in Hspans as (spans & _ & Hf7).
  apply export_Ok_inv in Hmd as (md & _ & Hf8).
  apply export_Ok_inv in Hcl as (contents & _ & Hf11).
  apply export_Ok_inv in Hmid as (middle & _ & Hf12).
  rewrite <- !app_assoc in *. simpl in *.
  assert (fs w8 !! (output_root ++ [doc; doc +:+ ".md"]) = Some (File md))
    as Hsrc by (rewrite Hf8; apply lookup_insert_eq).
  unfold os_path_exists in Hfound. inversion Hfound; subst found w9.
  clear Hfound.
  assert (exists_in (fs w8) (output_root ++ [doc; doc +:+ ".md"]) = true)
    as Hex.
  { unfold exists_in. rewrite Hsrc. by destruct output_root. }
  rewrite Hex in Hcopy.
  apply (shutil_copyfile_Ok_inv _ _ _ _ _ Hsrc) in Hcopy as [Hne Hf10].
  exists md, layout, spans, contents, middle.
  rewrite Hf12, Hf11, Hf10, Hf8, Hf7, Hf6.
  repeat split.
  - rewrite lookup_insert_ne by different_paths.
    rewrite lookup_insert_ne by different_paths.
    rewrite lookup_insert_ne by (intros E; by destruct Hne).
    apply lookup_insert_eq.
  - do 5 (rewrite lookup_insert_ne by different_paths).
    apply lookup_insert_eq.
  - do 4 (rewrite lookup_insert_ne by different_paths).
    apply lookup_insert_eq.
  - rewrite lookup_insert_ne by different_paths. apply lookup_insert_eq.
  - apply lookup_insert_eq.
  - do 2 (rewrite lookup_insert_ne by different_paths).
    apply lookup_insert_eq.
Qed.

Lemma process_single_pdf_outputs_witness :
  let w' := snd (process_single_pdf demo_pipeline (["in"; "a.pdf"], ["out"])
                   demo_world) in
  exists md,
    fs w' !! ["out"; "a"; "a.md"] = Some (File md)
    /\ fs w' !! ["out"; "markdowns"; "a.md"] = Some (File md).
Proof.
  destruct (process_single_pdf_outputs demo_pipeline ["in"; "a.pdf"] ["out"]
              "a" "a.pdf" demo_world
              (snd (process_single_pdf demo_pipeline
                      (["in"; "a.pdf"], ["out"]) demo_world)))
    as (_ & md & ? & ? & ? & ? & Hmd & _ & _ & _ & _ & Hcopy).
  - reflexivity.
  - discriminate.
  - vm_compute. reflexivity.
  - exists md. split; assumption.
Defined.

(** ** Enumeration, as [batch] uses it *)

Lemma loop_trace_prints S order tr S' x :
  loop_trace S order tr S' -> Print x ∈ tr ->
  exists name e, x = FailedLine name e.
Proof.
  induction 1 as [S | S t order tr S' e _ IH | S t order tr S' Hn _ IH
                 | S t order tr S' Hn _ IH]; intros Hin.
  - by apply elem_of_nil in Hin.
  - apply elem_of_cons in Hin as [E | Hin]; [inversion E; eauto |].
    apply elem_of_cons in Hin as [E | Hin]; [done | auto].
  - apply elem_of_cons in Hin as [E | Hin]; [done |].
    apply elem_of_cons in Hin as [E | Hin]; [done | auto].
  - apply elem_of_cons in Hin as [E | Hin]; [done | auto].
Qed.

(** C10. [glob_paths f dir "*.pdf"] lists exactly the entries directly
    inside the directory [dir] whose name ends in [.pdf], each once: an
    entry of a subdirectory is not listed, nor is an entry whose name does
    not end in [.pdf].  In every run of [batch], each task the pool runs is
    such an entry of the input directory, paired with the output
    directory, and the number of files the run reports as found is the
    length of this list. *)
Theorem glob_pdf_non_recursive (f : gmap path node) (dir : path) :
  (forall p, p ∈ glob_paths f dir "*.pdf"
             <-> is_dir f dir = true /\ is_Some (f !! p)
                 /\ exists stem, p = dir ++ [stem +:+ ".pdf"])
  /\ NoDup (glob_paths f dir "*.pdf")
  /\ (forall sub name rest,
        dir ++ sub :: name :: rest ∉ glob_paths f dir "*.pdf")
  /\ (forall name, (forall stem, name ≠ stem +:+ ".pdf") ->
                   dir ++ [name] ∉ glob_paths f dir "*.pdf")
  /\ (forall sch pl output_dir max_workers ledger0 trace0,
        let w := World f ledger0 trace0 in
        let w' := snd (batch sch pl dir output_dir max_workers w) in
        exists tr,
          trace w' = trace0 ++ tr
          /\ (forall t r, (t, r) ∈ pool_log tr ->
                snd t = output_dir
                /\ exists stem, fst t = dir ++ [stem +:+ ".pdf"])
          /\ (forall total seen todo,
                Print (FoundLine total seen todo) ∈ tr ->
                exists f', makedirs_from [] output_dir f = Ok f'
                  /\ total = length (glob_paths f' dir "*.pdf")
                  /\ forall t r, (t, r) ∈ pool_log tr ->
                                 fst t ∈ glob_paths f' dir "*.pdf")).
Proof.
  assert (forall g p, p ∈ glob_paths g dir "*.pdf"
             <-> is_dir g dir = true /\ is_Some (g !! p)
                 /\ exists stem, p = dir ++ [stem +:+ ".pdf"]) as Hiff.
  { intros g p. rewrite elem_of_glob_paths. split.
    - intros (Hd & Hp & name & -> & Hm). apply fnmatch_pdf in Hm as [stem ->].
      eauto.
    - intros (Hd & Hp & stem & ->). split; [done |]. split; [done |].
      exists (stem +:+ ".pdf"). split; [done |]. apply fnmatch_pdf. eauto. }
  split; [apply Hiff |]. split; [apply NoDup_glob_paths |].
  split; [| split].
  - intros sub name rest (_ & _ & stem & E)%Hiff.
    apply app_inv_head in E. done.
  - intros name Hname (_ & _ & stem & E)%Hiff.
    apply app_inv_head in E. inversion E. by eapply Hname.
  - intros sch pl output_dir max_workers ledger0 trace0 w w'. subst w'.
    destruct (batch_run sch pl dir output_dir max_workers w)
      as (r & w' & -> & Hout). simpl.
    inversion Hout as [e w1 Hs Hl Ht | all S1 tasks w1 e w2 Hs Hmw Hl Ht
                      | all S1 tasks w1 tr S' w2 Hs Hmw Hlt Hl Ht]; subst.
    + exists []. split; [by rewrite app_nil_r |].
      split; intros * Hin; by apply elem_of_nil in Hin.
    + eexists. split; [exact Ht |]. split.
      * intros t r0 Hin. by apply elem_of_nil in Hin.
      * intros total seen todo Hin.
        apply list_elem_of_singleton in Hin. inversion Hin; subst.
        apply batch_scan_Ok_inv in Hs as (Hm & _ & _ & -> & _).
        eexists. split; [exact Hm |]. split; [done |].
        intros t r0 Hin'. by apply elem_of_nil in Hin'.
    + pose proof (batch_scan_tasks _ _ _ _ _ _ _ Hs) as (_ & _ & _ & Hin).
      apply batch_scan_Ok_inv in Hs as (Hm & _ & _ & Hall & _).
      assert (forall t r0, (t, r0) ∈ pool_log tr ->
                snd t = output_dir /\ fst t ∈ all) as Hdisp.
      { intros t r0 Hlog.
        assert (t ∈ completion sch tasks) as Ht'.
        { rewrite <- (loop_trace_pool_log _ _ _ _ Hlt).
          apply list_elem_of_fmap. by exists (t, r0). }
        rewrite completion_perm in Ht'. apply Hin in Ht'. tauto. }
      eexists. split; [exact Ht |]. rewrite run_trace_pool_log. split.
      * intros t r0 Hlog. destruct (Hdisp _ _ Hlog) as [Ho Ha].
        split; [done |]. rewrite Hall in Ha.
        by apply Hiff in Ha as (_ & _ & ?).
      * intros total seen todo Hp.
        eexists. split; [exact Hm |].
        assert (total = length all) as ->.
        { apply elem_of_cons in Hp as [E | Hp]; [by inversion E |].
          apply elem_of_app in Hp as [Hp | Hp].
          - by apply (loop_trace_prints _ _ _ _ _ Hlt) in Hp as (? & ? & ?).
          - apply elem_of_cons in Hp as [E | Hp]; [done |].
            apply list_elem_of_singleton in Hp. done. }
        split; [by rewrite Hall |].
        intros t r0 Hlog. rewrite <- Hall. by apply (Hdisp _ _ Hlog).
Qed.

(** ** A document the analysis rejects *)



(** * Further properties of the code *)

(** ** What [os.makedirs] changes *)

Lemma makedirs_from_changes base rest f f' :
  makedirs_from base rest f = Ok f' ->
  forall q, f' !! q = f !! q
            \/ (f !! q = None /\ f' !! q = Some Dir
                /\ q `prefix_of` base ++ rest).
Proof.
  revert base f. induction rest as [|c rest IH]; intros base f H q;
    simpl in H.
  - inversion H; subst. by left.
  - destruct (f !! (base ++ [c])) as [[|d]|] eqn:Eq; [| done |].
    + destruct (IH _ _ H q) as [E | (E1 & E2 & E3)]; [by left |].
      right. rewrite <- app_assoc in E3. done.
    + destruct (IH _ _ H q) as [E | (E1 & E2 & E3)].
      * destruct (decide (q = base ++ [c])) as [->|Hne].
        -- right. rewrite lookup_insert_eq in E. split; [done |].
           split; [done |]. apply prefix_app, prefix_cons, prefix_nil.
        -- left. by rewrite lookup_insert_ne in E.
      * right. rewrite <- app_assoc in E3.
        destruct (decide (q = base ++ [c])) as [->|Hne].
        -- by rewrite lookup_insert_eq in E1.
        -- by rewrite lookup_insert_ne in E1.
Qed.

(** ** Entries are never removed, and keep their kind *)

Lemma same_kind_refl x : same_kind x x.
Proof. by destruct x. Qed.

Lemma same_kind_trans x y z : same_kind x y -> same_kind y z -> same_kind x z.
Proof. by destruct x, y, z. Qed.

Lemma kept_refl f : kept f f.
Proof. intros q x Hq. exists x. split; [done | apply same_kind_refl]. Qed.

Lemma kept_trans f1 f2 f3 : kept f1 f2 -> kept f2 f3 -> kept f1 f3.
Proof.
  intros H12 H23 q x Hq. destruct (H12 _ _ Hq) as (y & Hy & Hxy).
  destruct (H23 _ _ Hy) as (z & Hz & Hyz).
  exists z. split; [done |]. by eapply same_kind_trans.
Qed.

Lemma keeps_entries_same_fs {A} (m : M A) :
  (forall w, fs (snd (m w)) = fs w) -> keeps_entries m.
Proof. intros H w. rewrite H. apply kept_refl. Qed.

Lemma keeps_entries_bind {A B} (m : M A) (k : A -> M B) :
  keeps_entries m -> (forall a, keeps_entries (k a)) ->
  keeps_entries (bind m k).
Proof.
  intros Hm Hk w. unfold bind. specialize (Hm w).
  destruct (m w) as [[a|e] w1]; simpl in *; [| done].
  eapply kept_trans; [exact Hm | apply Hk].
Qed.

Lemma keeps_entries_try_except {A} (m : M A) (h : exn -> M A) :
  keeps_entries m -> (forall e, keeps_entries (h e)) ->
  keeps_entries (try_except m h).
Proof.
  intros Hm Hh w. unfold try_except. specialize (Hm w).
  destruct (m w) as [[a|e] w1]; simpl in *; [done |].
  eapply kept_trans; [exact Hm | apply Hh].
Qed.

Lemma keeps_entries_os_makedirs p : keeps_entries (os_makedirs p).
Proof.
  intros w q x Hq. unfold os_makedirs.
  destruct (makedirs_from [] p (fs w)) as [f'|e] eqn:E; simpl.
  - exists x. split; [| apply same_kind_refl].
    by apply (makedirs_from_Ok _ _ _ _ E).
  - exists x. split; [done | apply same_kind_refl].
Qed.

Lemma keeps_entries_write_file p d : keeps_entries (write_file p d).
Proof.
  intros w q x Hq. unfold write_file.
  destruct (is_dir (fs w) p) eqn:Ed;
    [exists x; split; [done | apply same_kind_refl] |].
  destruct (is_dir (fs w) (path_parent p));
    [| destruct (exists_in (fs w) (path_parent p));
       exists x; split; [done | apply same_kind_refl | done
                        | apply same_kind_refl]].
  simpl. destruct (decide (p = q)) as [->|Hne].
  - rewrite lookup_insert_eq. eexists. split; [done |].
    unfold is_dir in Ed. rewrite Hq in Ed. by destruct q, x.
  - rewrite lookup_insert_ne by done.
    exists x. split; [done | apply same_kind_refl].
Qed.

Lemma keeps_entries_read_file p : keeps_entries (read_file p).
Proof.
  apply keeps_entries_same_fs. intros w. unfold read_file.
  destruct p; [done |]. by destruct (fs w !! _) as [[]|].
Qed.

Create HintDb keeps_entries.

#[local] Hint Resolve keeps_entries_os_makedirs keeps_entries_write_file
  keeps_entries_read_file : keeps_entries.
#[local] Hint Extern 1 (keeps_entries (ret _)) =>
  apply keeps_entries_same_fs; intros; reflexivity : keeps_entries.
#[local] Hint Extern 1 (keeps_entries (raise _)) =>
  apply keeps_entries_same_fs; intros; reflexivity : keeps_entries.
#[local] Hint Extern 1 (keeps_entries (lift _)) =>
  apply keeps_entries_same_fs; intros; reflexivity : keeps_entries.
#[local] Hint Extern 1 (keeps_entries (print _)) =>
  apply keeps_entries_same_fs; intros; reflexivity : keeps_entries.
#[local] Hint Extern 1 (keeps_entries (os_path_exists _)) =>
  apply keeps_entries_same_fs; intros; reflexivity : keeps_entries.
#[local] Hint Extern 1 (keeps_entries (path_glob _ _)) =>
  apply keeps_entries_same_fs; intros; reflexivity : keeps_entries.

Ltac keeps_entries_step :=
  match goal with
  | |- keeps_entries (bind _ _) => apply keeps_entries_bind; [| intros ?]
  | |- keeps_entries (try_except _ _) =>
      apply keeps_entries_try_except; [| intros ?]
  | |- keeps_entries (if ?b then _ else _) => destruct b
  | |- keeps_entries (match ?x with OCR => _ | TXT => _ end) => destruct x
  | |- keeps_entries _ => solve [auto with keeps_entries]
  end.

Lemma keeps_entries_write_images dir imgs :
  keeps_entries (write_images dir imgs).
Proof.
  induction imgs as [|[name data] imgs IH]; simpl.
  - auto with keeps_entries.
  - unfold writer_write. repeat keeps_entries_step.
Qed.

#[local] Hint Resolve keeps_entries_write_images : keeps_entries.

Lemma keeps_entries_process_single_pdf pl t :
  keeps_entries (process_single_pdf pl t).
Proof.
  destruct t as [pdf_path output_root].
  unfold process_single_pdf, process_body, reader_read, analyse, run_pipe,
    draw_layout, draw_span, dump_md, dump_content_list, dump_middle_json,
    writer_write, shutil_copyfile.
  repeat keeps_entries_step.
Qed.

(** X2. The worker never deletes: whatever it returns, every directory that
    was there before is still a directory and every regular file is still
    a regular file (its content may have been overwritten). *)
Theorem process_single_pdf_never_deletes (pl : Pipeline)
  (pdf_path output_root : path) (w : world) (q : path) (x : node) :
  fs w !! q = Some x ->
  exists y,
    fs (snd (process_single_pdf pl (pdf_path, output_root) w)) !! q = Some y
    /\ same_kind x y.
Proof. apply (keeps_entries_process_single_pdf pl (pdf_path, output_root)). Qed.

Lemma process_single_pdf_never_deletes_witness :
  exists y,
    fs (snd (process_single_pdf demo_pipeline (["in"; "a.pdf"], ["out"])
               demo_world)) !! ["in"; "c.txt"] = Some y
    /\ same_kind (File "%PDF") y.
Proof.
  apply (process_single_pdf_never_deletes demo_pipeline ["in"; "a.pdf"]
           ["out"] demo_world ["in"; "c.txt"] (File "%PDF")).
  vm_compute. reflexivity.
Defined.

(** ** The worker writes below the output root only *)

Lemma confined_refl root f : confined root f f.
Proof. intros q Hq. by left. Qed.

Lemma confined_trans root f1 f2 f3 :
  confined root f1 f2 -> confined root f2 f3 -> confined root f1 f3.
Proof.
  intros H12 H23 q Hq.
  destruct (H12 q Hq) as [E12 | (N1 & D2 & P)];
    destruct (H23 q Hq) as [E23 | (N2 & D3 & P')].
  - left. congruence.
  - right. split; [congruence | done].
  - right. split; [done |]. split; [congruence | done].
  - congruence.
Qed.

Lemma writes_under_same_fs {A} root (m : M A) :
  (forall w, fs (snd (m w)) = fs w) -> writes_under root m.
Proof. intros H w. rewrite H. apply confined_refl. Qed.

Lemma writes_under_bind {A B} root (m : M A) (k : A -> M B) :
  writes_under root m -> (forall a, writes_under root (k a)) ->
  writes_under root (bind m k).
Proof.
  intros Hm Hk w. unfold bind. specialize (Hm w).
  destruct (m w) as [[a|e] w1]; simpl in *; [| done].
  eapply confined_trans; [exact Hm | apply Hk].
Qed.

Lemma writes_under_try_except {A} root (m : M A) (h : exn -> M A) :
  writes_under root m -> (forall e, writes_under root (h e)) ->
  writes_under root (try_except m h).
Proof.
  intros Hm Hh w. unfold try_except. specialize (Hm w).
  destruct (m w) as [[a|e] w1]; simpl in *; [done |].
  eapply confined_trans; [exact Hm | apply Hh].
Qed.

Lemma writes_under_os_makedirs root p :
  root `prefix_of` p -> writes_under root (os_makedirs p).
Proof.
  intros Hp w q Hq. unfold os_makedirs.
  destruct (makedirs_from [] p (fs w)) as [f'|e] eqn:E; simpl; [| by left].
  destruct (makedirs_from_changes _ _ _ _ E q) as [? | (N & D & P)];
    [by left |].
  right. split; [done |]. split; [done |]. simpl in P.
  by destruct (prefix_weak_total _ _ _ P Hp).
Qed.

Lemma writes_under_write_file root p d :
  root `prefix_of` p -> writes_under root (write_file p d).
Proof.
  intros Hp w q Hq. left. unfold write_file.
  destruct (is_dir (fs w) p); [done |].
  destruct (is_dir (fs w) (path_parent p));
    [| by destruct (exists_in (fs w) (path_parent p))].
  simpl. apply lookup_insert_ne. by intros ->.
Qed.

Lemma writes_under_read_file root p : writes_under root (read_file p).
Proof.
  apply writes_under_same_fs. intros w. unfold read_file.
  destruct p; [done |]. by destruct (fs w !! _) as [[]|].
Qed.

Ltac below_root :=
  repeat (apply prefix_app_r); reflexivity.

Ltac writes_under_step :=
  match goal with
  | |- writes_under _ (bind _ _) => apply writes_under_bind; [| intros ?]
  | |- writes_under _ (try_except _ _) =>
      apply writes_under_try_except; [| intros ?]
  | |- writes_under _ (if ?b then _ else _) => destruct b
  | |- writes_under _ (match ?x with OCR => _ | TXT => _ end) => destruct x
  | |- writes_under _ (os_makedirs _) =>
      apply writes_under_os_makedirs; below_root
  | |- writes_under _ (write_file _ _) =>
      apply writes_under_write_file; below_root
  | |- writes_under _ (read_file _) => apply writes_under_read_file
  | |- writes_under _ _ =>
      solve [apply writes_under_same_fs; intros; reflexivity]
  end.

Lemma writes_under_write_images root dir imgs :
  root `prefix_of` dir -> writes_under root (write_images dir imgs).
Proof.
  intros Hd. induction imgs as [|[name data] imgs IH]; simpl.
  - writes_under_step.
  - unfold writer_write. apply writes_under_bind; [| by intros ?].
    apply writes_under_write_file. by apply prefix_app_r.
Qed.

Lemma writes_under_process_single_pdf pl pdf_path output_root :
  writes_under output_root (process_single_pdf pl (pdf_path, output_root)).
Proof.
  unfold process_single_pdf, process_body, reader_read, analyse, run_pipe,
    draw_layout, draw_span, dump_md, dump_content_list, dump_middle_json,
    writer_write, shutil_copyfile.
  repeat first [apply writes_under_write_images; below_root
               | writes_under_step].
Qed.

(** X3. The worker touches nothing outside the output root: an entry that
    is not below [output_root] is as it was, or is a directory the worker
    created on the way down to [output_root].  In particular the input
    file, when it is not below the output root, is left as it was.  The
    stem [..] is set apart: the directory of such a file is written
    [output_root/..], which is below the output root as a path only. *)
Theorem process_single_pdf_confined (pl : Pipeline)
  (pdf_path output_root : path) (w : world) (q : path) :
  path_stem pdf_path ≠ ".." ->
  ¬ output_root `prefix_of` q ->
  let f' := fs (snd (process_single_pdf pl (pdf_path, output_root) w)) in
  f' !! q = fs w !! q
  \/ (fs w !! q = None /\ f' !! q = Some Dir /\ q `prefix_of` output_root).
Proof. intros _ Hq. by apply writes_under_process_single_pdf. Qed.

Lemma process_single_pdf_confined_witness :
  let f' := fs (snd (process_single_pdf demo_pipeline
                       (["in"; "a.pdf"], ["out"]) demo_world)) in
  f' !! ["in"; "a.pdf"] = fs demo_world !! ["in"; "a.pdf"]
  \/ (fs demo_world !! ["in"; "a.pdf"] = None
      /\ f' !! ["in"; "a.pdf"] = Some Dir
      /\ ["in"; "a.pdf"] `prefix_of` ["out"]).
Proof.
  apply (process_single_pdf_confined demo_pipeline ["in"; "a.pdf"] ["out"]
           demo_world ["in"; "a.pdf"]).
  - vm_compute. discriminate.
  - intros [k Hk]. discriminate Hk.
Defined.

(** ** The loop, seen from the workers *)

Lemma save_processed_files_same_fs S w :
  fs (snd (save_processed_files S w)) = fs w.
Proof. unfold save_processed_files, write_ledger. by destruct (ledger w). Qed.

Lemma save_processed_files_trace S w :
  exists sv,
    trace (snd (save_processed_files S w)) = trace w ++ sv
    /\ pool_log sv = [].
Proof.
  unfold save_processed_files, write_ledger.
  destruct (ledger w); simpl;
    first [by eexists [_] | exists []; by rewrite app_nil_r].
Qed.

Lemma handle_result_effect r st w :
  exists sv,
    fs (snd (handle_result r st w)) = fs w
    /\ trace (snd (handle_result r st w)) = trace w ++ sv
    /\ pool_log sv = [].
Proof.
  unfold handle_result. destruct st as [S succ].
  destruct (truthy r) as [n|]; [| exists []; by rewrite app_nil_r].
  unfold bind, save_processed_files, write_ledger.
  destruct (ledger w); simpl; first [by eexists [_] | exists []; by rewrite app_nil_r].
Qed.

Lemma keeps_entries_handle_result r st : keeps_entries (handle_result r st).
Proof.
  apply keeps_entries_same_fs. intros w.
  by destruct (handle_result_effect r st w) as (sv & ? & _).
Qed.

Lemma keeps_entries_pool_call pl t :
  keeps_entries (pool_call (process_single_pdf pl) t).
Proof.
  unfold pool_call. apply keeps_entries_bind.
  - apply keeps_entries_process_single_pdf.
  - intros r. apply keeps_entries_same_fs. intros; reflexivity.
Qed.

Lemma keeps_entries_imap_loop pl order :
  forall st, keeps_entries (imap_loop pl order st).
Proof.
  induction order as [|t order IH]; intros st; simpl.
  - apply keeps_entries_same_fs. intros; reflexivity.
  - apply keeps_entries_bind; [apply keeps_entries_pool_call |].
    intros r. apply keeps_entries_bind; [apply keeps_entries_handle_result |].
    intros st'. apply IH.
Qed.

(** Every result in the pool's log was returned by the worker, run on the
    task in a world that still had every entry of the initial one; and
    what the worker left is still there when the loop ends. *)
Lemma imap_loop_workers pl order : forall st w,
  exists tr,
    trace (snd (imap_loop pl order st w)) = trace w ++ tr
    /\ forall t r, (t, r) ∈ pool_log tr ->
         t ∈ order
         /\ exists wb wa,
              process_single_pdf pl t wb = (Ok r, wa)
              /\ kept (fs w) (fs wb)
              /\ kept (fs wa) (fs (snd (imap_loop pl order st w))).
Proof.
  induction order as [|[p out] order IH]; intros st w.
  - exists []. simpl. split; [by rewrite app_nil_r |].
    intros t r Hin. by apply elem_of_nil in Hin.
  - cbn [imap_loop].
    assert (exists r0 w0 pr,
              process_single_pdf pl (p, out) w = (Ok r0, w0)
              /\ trace w0 = trace w ++ pr /\ pool_log pr = [])
      as (r0 & w0 & pr & Hwork & Htr0 & Hpr).
    { destruct (process_single_pdf_cases pl p out w)
        as (w0 & _ & [[E Ht] | (e & E & Ht)]).
      - exists (Some (path_name p)), w0, []. by rewrite app_nil_r.
      - by exists None, w0, [Print (FailedLine (path_name p) e)]. }
    pose proof (keeps_entries_process_single_pdf pl (p, out) w) as Hk0.
    rewrite Hwork in Hk0. simpl in Hk0.
    set (w1 := emit (Complete (p, out) r0) w0).
    assert (pool_call (process_single_pdf pl) (p, out) w = (Ok r0, w1))
      as Hcall by (unfold pool_call; by rewrite (bind_Ok _ _ _ _ _ Hwork)).
    rewrite (bind_Ok _ _ _ _ _ Hcall); cbv beta.
    destruct (handle_result_effect r0 st w1) as (sv & Hfs2 & Htr2 & Hsv).
    destruct (handle_result r0 st w1) as [[st'|e] w2] eqn:Eh;
      simpl in Hfs2, Htr2;
      [rewrite (bind_Ok _ _ _ _ _ Eh) | rewrite (bind_Raise _ _ _ _ _ Eh)];
      cbv beta.
    + destruct (IH st' w2) as (tr' & Htr' & Hlog').
      pose proof (keeps_entries_imap_loop pl order st' w2) as Hk2.
      exists (pr ++ [Complete (p, out) r0] ++ sv ++ tr').
      split.
      { rewrite Htr', Htr2. unfold w1. simpl. rewrite Htr0.
        by rewrite <- !app_assoc. }
      intros t r. rewrite !pool_log_app, Hpr, Hsv. simpl.
      intros [Hin | Hin]%elem_of_cons.
      * inversion Hin; subst t r. split; [left |].
        exists w, w0. split; [done |]. split; [apply kept_refl |].
        rewrite Hfs2 in Hk2. exact Hk2.
      * destruct (Hlog' _ _ Hin) as (Hord & wb & wa & Hw & Hkb & Hka).
        split; [by right |]. exists wb, wa. split; [done |].
        split; [| done].
        eapply kept_trans; [exact Hk0 |]. rewrite Hfs2 in Hkb. exact Hkb.
    + exists (pr ++ [Complete (p, out) r0] ++ sv). simpl.
      split.
      { rewrite Htr2. unfold w1. simpl. rewrite Htr0.
        by rewrite <- !app_assoc. }
      intros t r. rewrite pool_log_app, Hpr, pool_log_cons_Complete, Hsv.
      simpl. intros Hin%list_elem_of_singleton. inversion Hin; subst t r.
      split; [left |]. exists w, w0. split; [done |].
      split; [apply kept_refl |]. rewrite Hfs2. apply kept_refl.
Qed.

(** The same for a run of [batch]. *)
Lemma batch_workers sch pl pdf_dir output_dir max_workers w :
  exists tr,
    trace (snd (batch sch pl pdf_dir output_dir max_workers w)) = trace w ++ tr
    /\ forall t r, (t, r) ∈ pool_log tr ->
         snd t = output_dir
         /\ fst t ∈ glob_paths
                      (fs (snd (os_makedirs output_dir w))) pdf_dir "*.pdf"
         /\ exists wb wa,
              process_single_pdf pl t wb = (Ok r, wa)
              /\ kept (fs w) (fs wb)
              /\ kept (fs wa)
                   (fs (snd (batch sch pl pdf_dir output_dir max_workers w))).
Proof.
  pose proof (fs_only_batch_scan pdf_dir output_dir w) as [_ Hts].
  unfold batch.
  destruct (batch_scan pdf_dir output_dir w) as [[[[all S0] tasks]|e] w1] eqn:Es;
    simpl in Hts.
  - rewrite (bind_Ok _ _ _ _ _ Es); cbv beta iota.
    pose proof (batch_scan_tasks _ _ _ _ _ _ _ Es) as (_ & _ & _ & Hin).
    pose proof (batch_scan_Ok_inv _ _ _ _ _ _ _ Es)
      as (Hm & _ & _ & Hall & _).
    assert (fs (snd (os_makedirs output_dir w)) = fs w1) as Hfs1.
    { unfold os_makedirs. by rewrite Hm. }
    assert (kept (fs w) (fs w1)) as Hk1.
    { rewrite <- Hfs1. apply keeps_entries_os_makedirs. }
    rewrite Hfs1, <- Hall.
    set (found := FoundLine (length all) (size S0) (length tasks)).
    set (w2 := emit (Print found) w1).
    rewrite (bind_Ok _ _ w1 tt w2) by reflexivity.
    unfold Pool. destruct (max_workers <? 1).
    + rewrite (bind_Raise _ _ w2 _ w2) by reflexivity.
      exists [Print found]. simpl. split; [by rewrite Hts |].
      intros t r Hl. by apply elem_of_nil in Hl.
    + rewrite (bind_Ok _ _ w2 tt w2) by reflexivity.
      destruct (imap_loop_workers pl (completion sch tasks) (S0, []) w2)
        as (tr & Htr & Hlog).
      destruct (imap_loop pl (completion sch tasks) (S0, []) w2)
        as [[st|e] w3] eqn:El; simpl in Htr, Hlog;
        [rewrite (bind_Ok _ _ _ _ _ El)
        | rewrite (bind_Raise _ _ _ _ _ El)]; cbv beta.
      * set (w4 := emit (Print (DoneLine (length (snd st)))) w3).
        rewrite (bind_Ok _ _ w3 tt w4) by reflexivity.
        pose proof (save_processed_files_same_fs (fst st) w4) as Hsf.
        destruct (save_processed_files_trace (fst st) w4)
          as (sv0 & Htr4 & Hsv0).
        set (sv := Print (DoneLine (length (snd st))) :: sv0).
        assert (pool_log sv = []) as Hsv by done.
        assert (trace (snd (save_processed_files (fst st) w4))
                = trace w3 ++ sv) as Htr4'.
        { rewrite Htr4. unfold w4, sv. simpl. by rewrite <- app_assoc. }
        clear Htr4. rename Htr4' into Htr4.
        exists (Print found :: tr ++ sv).
        split; [rewrite Htr4, Htr; simpl; rewrite Hts;
                by rewrite <- !app_assoc |].
        intros t r. rewrite pool_log_cons_Print, pool_log_app, Hsv, app_nil_r.
        intros Hl. destruct (Hlog _ _ Hl) as (Hord & wb & wa & Hw & Hkb & Hka).
        rewrite completion_perm in Hord. apply Hin in Hord as (Ho & Ha & _).
        split; [done |]. split; [done |]. exists wb, wa. split; [done |].
        split; [by eapply kept_trans |]. by rewrite Hsf.
      * exists (Print found :: tr).
        split; [simpl; rewrite Htr; simpl; rewrite Hts; by rewrite <- app_assoc |].
        intros t r. rewrite pool_log_cons_Print.
        intros Hl. destruct (Hlog _ _ Hl) as (Hord & wb & wa & Hw & Hkb & Hka).
        rewrite completion_perm in Hord. apply Hin in Hord as (Ho & Ha & _).
        split; [done |]. split; [done |]. exists wb, wa. split; [done |].
        split; [by eapply kept_trans | done].
  - rewrite (bind_Raise _ _ _ _ _ Es). exists []. simpl.
    split; [by rewrite Hts, app_nil_r |].
    intros t r Hl. by apply elem_of_nil in Hl.
Qed.

(** ** A worker that succeeds *)

Lemma process_single_pdf_Some_inv pl pdf_path output_root token w w' :
  process_single_pdf pl (pdf_path, output_root) w = (Ok (Some token), w') ->
  token = path_name pdf_path
  /\ path_stem pdf_path ≠ "markdowns"
  /\ (forall q, q ∈ output_files output_root (path_stem pdf_path) ->
                exists d, fs w' !! q = Some (File d))
  /\ fs w' !! (output_root ++ ["markdowns"; path_stem pdf_path +:+ ".md"])
     = fs w' !! (output_root
                   ++ [path_stem pdf_path; path_stem pdf_path +:+ ".md"]).
Proof.
  intros H.
  unfold process_single_pdf, try_except in H.
  destruct (process_body pl pdf_path output_root w) as [[r|e] w1] eqn:E;
    [| by inversion H].
  inversion H; subst r w1; clear H.
  unfold process_body in E. set (stem := path_stem pdf_path) in *.
  apply bind_Ok_inv in E as (? & wa & _ & E).
  apply bind_Ok_inv in E as (? & wb & _ & E).
  apply bind_Ok_inv in E as (? & wc & _ & E).
  apply bind_Ok_inv in E as (pdf_bytes & wd & _ & E).
  apply bind_Ok_inv in E as (pr & w5 & _ & E).
  apply bind_Ok_inv in E as ([] & w6 & Hlayout & E).
  apply bind_Ok_inv in E as ([] & w7 & Hspans & E).
  apply bind_Ok_inv in E as ([] & w8 & Hmd & E).
  apply bind_Ok_inv in E as (found & w9 & Hfound & E).
  apply bind_Ok_inv in E as ([] & w10 & Hcopy & E).
  apply bind_Ok_inv in E as ([] & w11 & Hcl & E).
  apply bind_Ok_inv in E as ([] & w12 & Hmid & E).
  unfold ret in E. inversion E; subst token w12; clear E.
  split; [done |].
  apply export_Ok_inv in Hlayout as (layout & _ & Hf6).
  apply export_Ok_inv in Hspans as (spans & _ & Hf7).
  apply export_Ok_inv in Hmd as (md & _ & Hf8).
  apply export_Ok_inv in Hcl as (contents & _ & Hf11).
  apply export_Ok_inv in Hmid as (middle & _ & Hf12).
  rewrite <- !app_assoc in *. simpl in *.
  assert (fs w8 !! (output_root ++ [stem; stem +:+ ".md"]) = Some (File md))
    as Hsrc by (rewrite Hf8; apply lookup_insert_eq).
  unfold os_path_exists in Hfound. inversion Hfound; subst found w9.
  clear Hfound.
  assert (exists_in (fs w8) (output_root ++ [stem; stem +:+ ".md"]) = true)
    as Hex.
  { unfold exists_in. rewrite Hsrc. by destruct output_root. }
  rewrite Hex in Hcopy.
  apply (shutil_copyfile_Ok_inv _ _ _ _ _ Hsrc) in Hcopy as [Hne Hf10].
  assert (fs w' !! (output_root ++ [stem; stem +:+ ".md"]) = Some (File md))
    as Hmd'.
  { rewrite Hf12, Hf11, Hf10.
    rewrite lookup_insert_ne by different_paths.
    rewrite lookup_insert_ne by different_paths.
    rewrite lookup_insert_ne by (intros E; by destruct Hne).
    done. }
  assert (fs w' !! (output_root ++ ["markdowns"; stem +:+ ".md"])
          = Some (File md)) as Hcp'.
  { rewrite Hf12, Hf11, Hf10.
    do 2 (rewrite lookup_insert_ne by different_paths).
    apply lookup_insert_eq. }
  split; [intros Es; apply Hne; by rewrite Es |].
  split; [| by rewrite Hmd', Hcp'].
  intros q Hq. unfold output_files in Hq.
  repeat (apply elem_of_cons in Hq as [-> | Hq]);
    [ .. | by apply elem_of_nil in Hq].
  - exists layout. rewrite Hf12, Hf11, Hf10, Hf8, Hf7, Hf6.
    do 5 (rewrite lookup_insert_ne by different_paths).
    apply lookup_insert_eq.
  - exists spans. rewrite Hf12, Hf11, Hf10, Hf8, Hf7.
    do 4 (rewrite lookup_insert_ne by different_paths).
    apply lookup_insert_eq.
  - by exists md.
  - by exists md.
  - exists contents. rewrite Hf12, Hf11.
    rewrite lookup_insert_ne by different_paths. apply lookup_insert_eq.
  - exists middle. rewrite Hf12. apply lookup_insert_eq.
Qed.



(** X5. In every run of [batch], when the run ends the output files of every
    task whose worker returned a name are regular files of the file
    system: what is recorded in the ledger during a run has its outputs
    on disk at the end of the run, whatever the later workers did. *)
Theorem batch_recorded_outputs_exist (sch : Schedule) (pl : Pipeline)
  (pdf_dir output_dir : path) (max_workers : Z) (w : world) :
  let w' := snd (batch sch pl pdf_dir output_dir max_workers w) in
  exists tr,
    trace w' = trace w ++ tr
    /\ forall t name, (t, Some name) ∈ pool_log tr ->
         name = path_name (fst t)
         /\ forall q, q ∈ output_files output_dir (path_stem (fst t)) ->
                      exists d, fs w' !! q = Some (File d).
Proof.
  intros w'. subst w'.
  destruct (batch_workers sch pl pdf_dir output_dir max_workers w)
    as (tr & Htr & Hlog).
  exists tr. split; [done |]. intros [p o] name Hin.
  destruct (Hlog _ _ Hin) as (Ho & _ & wb & wa & Hw & _ & Hk).
  simpl in Ho. subst o.
  apply process_single_pdf_Some_inv in Hw as (Hn & _ & Hfiles & _).
  split; [done |]. intros q Hq. destruct (Hfiles q Hq) as [d Hd].
  destruct (Hk _ _ Hd) as ([|d'] & Hy & Hkind); [done |]. eauto.
Qed.

(** ** Stems of the enumerated files *)

Lemma glob_pdf_stem f dir p :
  p ∈ glob_paths f dir "*.pdf" ->
  (path_name p = ".pdf" /\ path_stem p = ".pdf")
  \/ (path_stem p ≠ "" /\ path_name p = path_stem p +:+ ".pdf").
Proof.
  intros (_ & _ & name & -> & Hm)%elem_of_glob_paths.
  apply fnmatch_pdf in Hm as [doc ->]. rewrite path_name_snoc.
  destruct (decide (doc = "")) as [->|Hne].
  - left. split; [done |]. unfold path_stem. by rewrite path_name_snoc.
  - right. rewrite (path_stem_pdf _ doc); [done | | done].
    by rewrite path_name_snoc.
Qed.

(** X6. Two distinct files of the enumeration have distinct stems, hence
    distinct output directories and distinct collected markdown files,
    with one exception: the files [.pdf] and [.pdf.pdf] both have the stem
    [.pdf]. *)
Theorem glob_stems_distinct (f : gmap path node) (dir p q : path) :
  p ∈ glob_paths f dir "*.pdf" ->
  q ∈ glob_paths f dir "*.pdf" ->
  path_stem p = path_stem q ->
  p = q
  \/ (path_name p = ".pdf" /\ path_name q = ".pdf.pdf")
  \/ (path_name p = ".pdf.pdf" /\ path_name q = ".pdf").
Proof.
  intros Hp Hq Hstem.
  rewrite (glob_paths_parent _ _ _ _ Hp), (glob_paths_parent _ _ _ _ Hq).
  destruct (glob_pdf_stem _ _ _ Hp) as [[Np Sp] | [Sp Np]];
    destruct (glob_pdf_stem _ _ _ Hq) as [[Nq Sq] | [Sq Nq]].
  - left. by rewrite Np, Nq.
  - right. left. rewrite !path_name_snoc. split; [done |].
    by rewrite Nq, <- Hstem, Sp.
  - right. right. rewrite !path_name_snoc. split; [| done].
    by rewrite Np, Hstem, Sq.
  - left. by rewrite Np, Nq, Hstem.
Qed.

Lemma glob_stems_distinct_witness :
  ["in"; ".pdf"] = ["in"; ".pdf.pdf"]
  \/ (path_name ["in"; ".pdf"] = ".pdf"
      /\ path_name ["in"; ".pdf.pdf"] = ".pdf.pdf")
  \/ (path_name ["in"; ".pdf"] = ".pdf.pdf"
      /\ path_name ["in"; ".pdf.pdf"] = ".pdf").
Proof.
  apply (glob_stems_distinct dotted_fs ["in"] ["in"; ".pdf"]
           ["in"; ".pdf.pdf"]).
  - vm_compute. left.
  - vm_compute. right. left.
  - reflexivity.
Defined.

(** ** An input that is not a regular file *)





(** ** What a run does to the file system *)

Lemma load_processed_files_same_fs w :
  fs (snd (load_processed_files w)) = fs w.
Proof.
  destruct (load_processed_files w) as [r w'] eqn:E.
  apply load_processed_files_same_world in E. by subst.
Qed.

Lemma keeps_entries_batch sch pl pdf_dir output_dir max_workers :
  keeps_entries (batch sch pl pdf_dir output_dir max_workers).
Proof.
  unfold batch, batch_scan, Pool.
  repeat first
    [ apply (keeps_entries_same_fs load_processed_files);
      apply load_processed_files_same_fs
    | apply keeps_entries_bind; [| intros ?]
    | apply keeps_entries_os_makedirs
    | apply keeps_entries_imap_loop
    | match goal with
      | |- keeps_entries (let '(_, _) := ?x in _) => destruct x as [[? ?] ?]
      | |- keeps_entries (if ?b then _ else _) => destruct b
      end
    | apply keeps_entries_same_fs; intros w;
      first [ reflexivity
            | apply save_processed_files_same_fs
            | destruct (load_processed_files w) as [r w'] eqn:E;
              apply load_processed_files_same_world in E; by subst ] ].
Qed.

(** X8. A run of [batch] never deletes: every directory of the file system is
    still a directory when the run ends or raises, and every regular file
    is still a regular file. *)
Theorem batch_never_deletes (sch : Schedule) (pl : Pipeline)
  (pdf_dir output_dir : path) (max_workers : Z) (w : world)
  (q : path) (x : node) :
  fs w !! q = Some x ->
  exists y,
    fs (snd (batch sch pl pdf_dir output_dir max_workers w)) !! q = Some y
    /\ same_kind x y.
Proof. apply keeps_entries_batch. Qed.

Lemma batch_never_deletes_witness :
  exists y,
    fs (snd (batch fifo demo_pipeline ["in"] ["out"] 2 demo_world))
      !! ["in"; "sub"; "d.pdf"] = Some y
    /\ same_kind (File "%PDF") y.
Proof.
  apply (batch_never_deletes fifo demo_pipeline ["in"] ["out"] 2 demo_world
           ["in"; "sub"; "d.pdf"] (File "%PDF")).
  vm_compute. reflexivity.
Defined.

Lemma writes_under_imap_loop pl output_dir order :
  Forall (fun t => snd t = output_dir) order ->
  forall st, writes_under output_dir (imap_loop pl order st).
Proof.
  induction order as [|[p o] order IH]; intros Hall st; simpl.
  - apply writes_under_same_fs. intros; reflexivity.
  - apply Forall_cons in Hall as [Ho Hall]. simpl in Ho. subst o.
    apply writes_under_bind.
    + unfold pool_call. apply writes_under_bind.
      * apply writes_under_process_single_pdf.
      * intros r. apply writes_under_same_fs. intros; reflexivity.
    + intros r. apply writes_under_bind; [| intros st'; by apply IH].
      apply writes_under_same_fs. intros w.
      by destruct (handle_result_effect r st w) as (sv & ? & _).
Qed.

Lemma writes_under_batch sch pl pdf_dir output_dir max_workers :
  writes_under output_dir (batch sch pl pdf_dir output_dir max_workers).
Proof.
  intros w.
  assert (writes_under output_dir (batch_scan pdf_dir output_dir)) as Hscan.
  { unfold batch_scan.
    repeat first
      [ apply (writes_under_same_fs _ load_processed_files);
        apply load_processed_files_same_fs
      | apply writes_under_bind; [| intros ?]
      | apply writes_under_os_makedirs; reflexivity
      | apply writes_under_same_fs; intros w0;
        first [ reflexivity
              | destruct (load_processed_files w0) as [r w'] eqn:E;
                apply load_processed_files_same_world in E; by subst ] ]. }
  specialize (Hscan w). unfold batch.
  destruct (batch_scan pdf_dir output_dir w) as [[[[all S0] tasks]|e] w1] eqn:Es;
    simpl in Hscan.
  - rewrite (bind_Ok _ _ _ _ _ Es); cbv beta iota.
    eapply confined_trans; [exact Hscan |].
    pose proof (batch_scan_tasks _ _ _ _ _ _ _ Es) as (_ & _ & _ & Hin).
    assert (Forall (fun t => snd t = output_dir) (completion sch tasks))
      as Hall.
    { apply Forall_forall. intros t Ht. rewrite completion_perm in Ht.
      by apply Hin in Ht as (? & _). }
    revert w1 Es Hscan. unfold Pool.
    match goal with |- forall w1, _ -> _ -> confined _ _ (fs (snd (?k w1))) =>
      assert (writes_under output_dir k) as Hk
    end.
    { repeat first
        [ apply writes_under_bind; [| intros ?]
        | by apply writes_under_imap_loop
        | match goal with
          | |- writes_under _ (if ?b then _ else _) => destruct b
          end
        | apply writes_under_same_fs; intros w0;
          first [reflexivity | apply save_processed_files_same_fs] ]. }
    intros w1 _ _. apply Hk.
  - by rewrite (bind_Raise _ _ _ _ _ Es).
Qed.



Lemma confined_glob_paths root dir pat f f' :
  confined root f f' ->
  ¬ root `prefix_of` dir -> ¬ dir `prefix_of` root ->
  glob_paths f' dir pat ≡ₚ glob_paths f dir pat
  /\ forall p, p ∈ glob_paths f dir pat -> f' !! p = f !! p.
Proof.
  intros Hc Hrd Hdr.
  assert (f' !! dir = f !! dir) as Hdir.
  { destruct (Hc dir Hrd) as [? | (_ & _ & ?)]; done. }
  assert (forall name, f' !! (dir ++ [name]) = f !! (dir ++ [name])) as Hchild.
  { intros name.
    assert (¬ root `prefix_of` dir ++ [name]) as Hn.
    { intros [k Hk].
      destruct (decide (k = [])) as [->|Hne].
      - apply Hdr. exists [name]. by rewrite app_nil_r in Hk.
      - apply Hrd. destruct (exists_last Hne) as (k' & x & ->).
        rewrite app_assoc in Hk. apply app_inj_tail in Hk as [-> _].
        by exists k'. }
    destruct (Hc _ Hn) as [? | (_ & _ & Hp)]; [done |].
    destruct Hdr. etrans; [| exact Hp]. by apply prefix_app_r. }
  assert (is_dir f' dir = is_dir f dir) as Hisdir.
  { unfold is_dir. by rewrite Hdir. }
  split.
  - apply NoDup_Permutation; try apply NoDup_glob_paths.
    intros p. rewrite !elem_of_glob_paths, Hisdir.
    split; intros (Hd & Hs & name & -> & Hm);
      (split; [done |]; split; [| eauto]).
    + by rewrite <- Hchild.
    + by rewrite Hchild.
  - intros p (_ & _ & name & -> & _)%elem_of_glob_paths. apply Hchild.
Qed.

(** X10. When the input directory and the output directory are not inside
    one another, a run of [batch] leaves the input directory as it found
    it: the same entries are enumerated after the run as before, and each
    of them holds what it held.  This is for an input directory that
    holds no file with the stem [..]. *)
Theorem batch_keeps_input (sch : Schedule) (pl : Pipeline)
  (pdf_dir output_dir : path) (max_workers : Z) (w : world) :
  (forall p, p ∈ glob_paths (fs w) pdf_dir "*.pdf" -> path_stem p ≠ "..") ->
  ¬ output_dir `prefix_of` pdf_dir ->
  ¬ pdf_dir `prefix_of` output_dir ->
  let f' := fs (snd (batch sch pl pdf_dir output_dir max_workers w)) in
  glob_paths f' pdf_dir "*.pdf" ≡ₚ glob_paths (fs w) pdf_dir "*.pdf"
  /\ forall p, p ∈ glob_paths (fs w) pdf_dir "*.pdf" -> f' !! p = fs w !! p.
Proof.
  intros _ H1 H2. apply (confined_glob_paths output_dir); [| done | done].
  apply writes_under_batch.
Qed.

Lemma batch_keeps_input_witness :
  let f' := fs (snd (batch fifo demo_pipeline ["in"] ["out"] 2 demo_world)) in
  glob_paths f' ["in"] "*.pdf" ≡ₚ glob_paths (fs demo_world) ["in"] "*.pdf"
  /\ forall p, p ∈ glob_paths (fs demo_world) ["in"] "*.pdf" ->
               f' !! p = fs demo_world !! p.
Proof.
  apply (batch_keeps_input fifo demo_pipeline ["in"] ["out"] 2 demo_world).
  - intros p Hp.
    replace (glob_paths (fs demo_world) ["in"] "*.pdf")
      with [["in"; "b.pdf"]; ["in"; "a.pdf"]] in Hp
      by (vm_compute; reflexivity).
    apply elem_of_cons in Hp as [-> | Hp]; [by vm_compute |].
    apply list_elem_of_singleton in Hp as ->. by vm_compute.
  - intros [k Hk]. discriminate Hk.
  - intros [k Hk]. discriminate Hk.
Defined.

(** ** Runs that do not get to the pool *)

Lemma makedirs_from_blocked base rest f pre c suf d :
  rest = pre ++ c :: suf ->
  f !! (base ++ pre ++ [c]) = Some (File d) ->
  exists e, makedirs_from base rest f = Raise e.
Proof.
  revert base f pre. induction rest as [|c0 rest IH]; intros base f pre E Hf.
  - by destruct pre.
  - simpl. destruct pre as [|c1 pre]; simpl in E; inversion E; subst.
    + simpl in Hf. rewrite Hf. eauto.
    + destruct (f !! (base ++ [c1])) as [[|d1]|] eqn:Eq; [| eauto |].
      * apply (IH _ _ pre); [done |]. by rewrite <- app_assoc.
      * apply (IH _ _ pre); [done |].
        rewrite lookup_insert_ne; [by rewrite <- app_assoc |].
        rewrite <- app_assoc. simpl. intros Hk.
        apply app_inv_head in Hk. inversion Hk as [Hk'].
        symmetry in Hk'. by apply app_nil in Hk' as [_ ?].
Qed.

(** X11. When a component of the output directory is an existing regular file,
    [batch] raises at once: nothing is printed, the ledger is not read and
    the world is left as it was. *)
Theorem batch_output_dir_blocked (sch : Schedule) (pl : Pipeline)
  (pdf_dir output_dir : path) (max_workers : Z) (w : world)
  (pre suf : path) (c : string) (d : bytes) :
  output_dir = pre ++ c :: suf ->
  fs w !! (pre ++ [c]) = Some (File d) ->
  exists e, batch sch pl pdf_dir output_dir max_workers w = (Raise e, w).
Proof.
  intros E Hf.
  destruct (makedirs_from_blocked [] output_dir (fs w) pre c suf d E Hf)
    as [e He].
  exists e. unfold batch, batch_scan, bind, os_makedirs. by rewrite He.
Qed.

Lemma batch_output_dir_blocked_witness :
  exists e,
    batch fifo demo_pipeline ["in"] ["in"; "c.txt"; "out"] 2 demo_world
    = (Raise e, demo_world).
Proof.
  apply (batch_output_dir_blocked fifo demo_pipeline ["in"]
           ["in"; "c.txt"; "out"] 2 demo_world ["in"] ["out"] "c.txt" "%PDF").
  - reflexivity.
  - vm_compute. reflexivity.
Defined.

(** X12. With [max_workers] below one the pool cannot be created: [batch]
    raises, at the latest when it creates the pool; no task is dispatched
    and the ledger file is neither written nor created. *)
Theorem batch_without_workers (sch : Schedule) (pl : Pipeline)
  (pdf_dir output_dir : path) (max_workers : Z) (w : world) :
  max_workers < 1 ->
  exists e w' tr,
    batch sch pl pdf_dir output_dir max_workers w = (Raise e, w')
    /\ trace w' = trace w ++ tr
    /\ pool_log tr = [] /\ saves tr = []
    /\ ledger w' = ledger w.
Proof.
  intros Hmw.
  destruct (batch_run sch pl pdf_dir output_dir max_workers w)
    as (r & w' & Hb & Hout).
  inversion Hout as [e w1 Hs Hl Ht | all S1 tasks w1 e w2 Hs Hmw' Hl Ht
                    | all S1 tasks w1 tr S' w2 Hs Hmw' Hlt Hl Ht]; subst;
    [| | lia].
  - exists e, w', []. by rewrite app_nil_r.
  - exists e, w'. eexists. split; [done |]. split; [exact Ht | done].
Qed.

Lemma batch_without_workers_witness :
  exists e w' tr,
    batch fifo demo_pipeline ["in"] ["out"] 0 demo_world = (Raise e, w')
    /\ trace w' = trace demo_world ++ tr
    /\ pool_log tr = [] /\ saves tr = []
    /\ ledger w' = ledger demo_world.
Proof.
  apply (batch_without_workers fifo demo_pipeline ["in"] ["out"] 0 demo_world).
  lia.
Defined.

(** ** An input directory that is not there *)



(** ** The counts of the two summary lines *)

Lemma loop_trace_saves_length S order tr S' :
  loop_trace S order tr S' -> length (saves tr) = length (successes tr).
Proof.
  induction 1 as [S | S t order tr S' e _ IH | S t order tr S' Hn _ IH
                 | S t order tr S' Hn _ IH].
  - done.
  - by rewrite successes_cons_Print, successes_cons_Complete.
  - rewrite successes_cons_Complete, (truthy_Some _ Hn), successes_cons_Save.
    simpl. by rewrite IH.
  - rewrite successes_cons_Complete. simpl. exact IH.
Qed.

Lemma length_filter_split {A} (P : A -> Prop) `{!forall x, Decision (P x)}
  (l : list A) :
  length l = (length (filter P l) + length (filter (fun x => ¬ P x) l))%nat.
Proof.
  induction l as [|a l IH]; [done |].
  rewrite !filter_cons. destruct (decide (P a)), (decide (¬ P a)); simpl;
    try tauto; lia.
Qed.

Lemma length_le_size_names (l : list path) (S : gset string) :
  NoDup (map path_name l) ->
  (forall p, p ∈ l -> path_name p ∈ S) ->
  (length l <= size S)%nat.
Proof.
  intros Hnd Hin.
  rewrite <- (length_map path_name l : length (map path_name l) = length l).
  rewrite <- (size_list_to_set (C := gset string) _ Hnd).
  apply subseteq_size. intros x Hx.
  apply elem_of_list_to_set, list_elem_of_fmap in Hx as (p & -> & Hp).
  by apply Hin.
Qed.

(** X14. The numbers the two summary lines of a completed run print are those
    of the run.  The first line gives the files found, the size of the
    loaded ledger and the files dispatched; the second the files added.
    Every dispatched file is reported once, as added or as failed; the
    files found that are not dispatched are at most the ledger's entries
    (the ledger may name files that are no longer there); the ledger file
    ends with exactly the loaded entries and the added ones; and it was
    written once per added file before the final write. *)
Theorem batch_summary_counts (sch : Schedule) (pl : Pipeline)
  (pdf_dir output_dir : path) (max_workers : Z) (w w' : world) :
  batch sch pl pdf_dir output_dir max_workers w = (Ok tt, w') ->
  exists (total seen todo added : nat) tr names,
    trace w' = trace w ++ Print (FoundLine total seen todo) :: tr
                 ++ [Print (DoneLine added); Save names]
    /\ ledger w' = Array names
    /\ total = length (glob_paths (fs (snd (os_makedirs output_dir w)))
                         pdf_dir "*.pdf")
    /\ seen = size (ledger_set (ledger w))
    /\ todo = length (pool_log tr)
    /\ added = length (successes tr)
    /\ todo = (added + length (failures tr))%nat
    /\ (total <= seen + todo)%nat
    /\ length names = (seen + added)%nat
    /\ length (saves tr) = added.
Proof.
  intros Hb.
  apply batch_Ok_inv in Hb as (all & S0 & tasks & wa & tr & S' & Hs & Hmw
                               & Hlt & Hl & Ht).
  pose proof (batch_scan_tasks _ _ _ _ _ _ _ Hs) as (_ & Hnd & Hne & Hin).
  pose proof (batch_scan_Ok_inv _ _ _ _ _ _ _ Hs)
    as (Hm & _ & _ & Hall & _ & HS0 & Htasks).
  pose proof (loop_trace_pool_log _ _ _ _ Hlt) as Hlog.
  pose proof (loop_trace_set _ _ _ _ Hlt) as HS'.
  assert (Forall (fun t => task_name t ≠ "") (completion sch tasks)) as Hne'
    by (by rewrite completion_perm).
  pose proof (loop_trace_names _ _ _ _ Hlt Hne') as Hnames.
  assert (length tasks = length (pool_log tr)) as Htodo.
  { rewrite <- (length_map fst (pool_log tr) : length (map fst _) = _), Hlog.
    by rewrite completion_perm. }
  assert (NoDup (successes tr)
          /\ forall x, x ∈ successes tr -> x ∉ S0) as [Hnds Hnew].
  { assert (NoDup (map task_name (completion sch tasks))) as Hnd'
      by (by rewrite completion_perm).
    rewrite Hnames in Hnd'. apply NoDup_app in Hnd' as (Hnd' & _ & _).
    split; [done |]. intros x Hx.
    assert (x ∈ map task_name (completion sch tasks)) as Hx'
      by (rewrite Hnames; apply elem_of_app; by left).
    apply list_elem_of_fmap in Hx' as (t & -> & Ht').
    rewrite completion_perm in Ht'. by apply Hin in Ht' as (_ & _ & ?). }
  exists (length all), (size S0), (length tasks), (length (successes tr)),
    tr, (sorted (elements S')).
  split; [exact Ht |]. split; [exact Hl |].
  split.
  { rewrite Hall. unfold os_makedirs. by rewrite Hm. }
  split; [by rewrite HS0 |]. split; [exact Htodo |]. split; [done |].
  split.
  { apply Permutation_length in Hnames.
    rewrite length_app, !length_map in Hnames.
    rewrite <- Hnames. by rewrite completion_perm. }
  split.
  { rewrite Htasks. unfold make_tasks, unprocessed. rewrite length_map.
    assert (length (filter (fun p => ¬ (path_name p ∉ S0)) all)
            <= size S0)%nat.
    { apply length_le_size_names.
      - apply NoDup_fmap_2_strong; [| apply NoDup_filter; rewrite Hall;
                                       apply NoDup_glob_paths].
        intros p q (_ & Hp)%list_elem_of_filter (_ & Hq)%list_elem_of_filter.
        pose proof (NoDup_glob_names (fs wa) pdf_dir "*.pdf") as Hn.
        rewrite <- Hall in Hn.
        intros E. eapply (NoDup_fmap_inj_on path_name all); eauto.
      - intros p (Hp & _)%list_elem_of_filter.
        destruct (decide (path_name p ∈ S0)); [done | by destruct Hp]. }
    pose proof (length_filter_split (fun p => path_name p ∉ S0) all).
    lia. }
  split.
  { transitivity (size S'); [by rewrite sorted_Permutation |].
    rewrite HS', size_union.
    - by rewrite (size_list_to_set _ Hnds).
    - intros x Hx Hx'. apply elem_of_list_to_set in Hx'.
      by apply (Hnew x). }
  by apply (loop_trace_saves_length _ _ _ _ Hlt).
Qed.

Lemma batch_summary_counts_witness :
  exists (total seen todo added : nat) tr names,
    trace (snd (batch fifo demo_pipeline ["in"] ["out"] 2 demo_world))
    = trace demo_world ++ Print (FoundLine total seen todo) :: tr
        ++ [Print (DoneLine added); Save names]
    /\ ledger (snd (batch fifo demo_pipeline ["in"] ["out"] 2 demo_world))
       = Array names
    /\ total = length (glob_paths (fs (snd (os_makedirs ["out"] demo_world)))
                         ["in"] "*.pdf")
    /\ seen = size (ledger_set (ledger demo_world))
    /\ todo = length (pool_log tr)
    /\ added = length (successes tr)
    /\ todo = (added + length (failures tr))%nat
    /\ (total <= seen + todo)%nat
    /\ length names = (seen + added)%nat
    /\ length (saves tr) = added.
Proof.
  apply (batch_summary_counts fifo demo_pipeline ["in"] ["out"] 2 demo_world).
  vm_compute. reflexivity.
Defined.

(** ** Loading, then saving *)



(** ** Running the worker again *)

Lemma kept_Dir f f' q : kept f f' -> f !! q = Some Dir -> f' !! q = Some Dir.
Proof.
  intros H Hq. destruct (H q Dir Hq) as (y & Hy & Hk). by destruct y.
Qed.

Lemma kept_File f f' q d :
  kept f f' -> f !! q = Some (File d) -> exists d', f' !! q = Some (File d').
Proof.
  intros H Hq. destruct (H q (File d) Hq) as (y & Hy & Hk).
  destruct y; [done | eauto].
Qed.

Lemma replays_pure {A} root f0 f1 (m : M A) :
  (forall w w', fst (m w) = fst (m w')) ->
  (forall w, snd (m w) = w) ->
  replays root f0 f1 m.
Proof.
  intros Hr Hs wa a wa' wb Ha Hk Hrel.
  exists wb. pose proof (Hs wa) as Hsa. pose proof (Hr wa wb) as Hrab.
  pose proof (Hs wb) as Hsb. rewrite Ha in Hsa, Hrab. simpl in *. subst wa'.
  split; [| done]. destruct (m wb); simpl in *. by subst.
Qed.

Lemma replays_ret {A} root f0 f1 (a : A) : replays root f0 f1 (ret a).
Proof. by apply replays_pure. Qed.

Lemma replays_lift {A} root f0 f1 (r : result A) : replays root f0 f1 (lift r).
Proof. by apply replays_pure. Qed.

Lemma replays_bind {A B} root f0 f1 (m : M A) (k : A -> M B) :
  replays root f0 f1 m ->
  (forall a, keeps_entries (k a)) ->
  (forall a, replays root f0 f1 (k a)) ->
  replays root f0 f1 (bind m k).
Proof.
  intros Hm Hkk Hk wa b wa' wb Ha Hkept Hrel.
  apply bind_Ok_inv in Ha as (a & wa1 & Ha1 & Ha2).
  assert (kept (fs wa1) f1) as Hk1.
  { eapply kept_trans; [| exact Hkept].
    pose proof (Hkk a wa1) as H. by rewrite Ha2 in H. }
  destruct (Hm _ _ _ _ Ha1 Hk1 Hrel) as (wb1 & Hb1 & Hrel1).
  destruct (Hk a _ _ _ _ Ha2 Hkept Hrel1) as (wb' & Hb2 & Hrel2).
  exists wb'. split; [| done]. by rewrite (bind_Ok _ _ _ _ _ Hb1).
Qed.

Lemma replays_os_makedirs root f0 f1 p :
  root `prefix_of` p -> replays root f0 f1 (os_makedirs p).
Proof.
  intros Hp wa [] wa' wb Ha Hkept (Hc & Hkb & Hq).
  pose proof (writes_under_os_makedirs root p Hp wa) as Hwu.
  rewrite Ha in Hwu. simpl in Hwu.
  unfold os_makedirs in Ha.
  destruct (makedirs_from [] p (fs wa)) as [fa'|e] eqn:E; [| done].
  inversion Ha; subst wa'; clear Ha. simpl in *.
  destruct (makedirs_from_Ok _ _ _ _ E) as [_ Hdirs].
  assert (makedirs_from [] p (fs wb) = Ok (fs wb)) as Eb.
  { apply makedirs_from_present. intros pre c suf Hpcs.
    eapply kept_Dir; [exact Hkb |]. eapply kept_Dir; [exact Hkept |].
    by apply (Hdirs pre c suf). }
  exists wb. unfold os_makedirs. rewrite Eb.
  split; [by destruct wb |].
  split; [by eapply confined_trans |]. split; [done |].
  intros q. destruct (Hq q) as [Hqa | Hqf]; [| by right].
  destruct (makedirs_from_changes _ _ _ _ E q) as [Hsame | (Hn & Hd & _)].
  - left. by rewrite Hsame.
  - left. rewrite Hd. eapply kept_Dir; [exact Hkb |].
    by eapply kept_Dir; [exact Hkept |].
Qed.

Lemma write_file_Ok_cases p d w w' :
  write_file p d w = (Ok tt, w') ->
  p ≠ []
  /\ (path_parent p = [] \/ fs w !! path_parent p = Some Dir)
  /\ w' = set_fs (<[p := File d]> (fs w)) w.
Proof.
  unfold write_file, is_dir. destruct p as [|c p]; [done |].
  set (q := c :: p).
  destruct (fs w !! q) as [[|]|] eqn:Eq; try done;
    (destruct (path_parent q) as [|c' p'] eqn:Ep;
     [intros H; inversion H; by auto |]);
    (destruct (fs w !! (c' :: p')) as [[|]|] eqn:Epar; simpl;
     rewrite ?Epar; intros H; inversion H; by auto).
Qed.

Lemma path_parent_ne p : p ≠ [] -> path_parent p ≠ p.
Proof.
  intros Hp E. apply (f_equal length) in E. unfold path_parent in E.
  revert E. destruct p as [|c p] using rev_ind; [done |].
  rewrite removelast_last, length_app. simpl. lia.
Qed.

(** A write of the first run succeeds in the second, where it puts the
    same bytes at the same path. *)
Lemma write_file_replay root f0 f1 p d wa wa' wb :
  root `prefix_of` p ->
  write_file p d wa = (Ok tt, wa') ->
  kept (fs wa') f1 ->
  replay_rel root f0 f1 (fs wa) (fs wb) ->
  write_file p d wb = (Ok tt, set_fs (<[p := File d]> (fs wb)) wb)
  /\ fs wa' = <[p := File d]> (fs wa)
  /\ replay_rel root f0 f1 (fs wa') (<[p := File d]> (fs wb)).
Proof.
  intros Hp Ha Hkept (Hc & Hkb & Hq).
  pose proof (writes_under_write_file root p d Hp wa) as Hwu.
  rewrite Ha in Hwu. simpl in Hwu.
  destruct (write_file_Ok_cases _ _ _ _ Ha) as (Hne & Hpar & ->).
  simpl in *.
  assert (exists d', f1 !! p = Some (File d')) as [d1 Hf1]
    by (eapply kept_File; [exact Hkept | apply lookup_insert_eq]).
  destruct (kept_File _ _ _ _ Hkb Hf1) as [d2 Hb].
  split; [| split; [done |]].
  - unfold write_file, is_dir. destruct p as [|c p]; [done |].
    rewrite Hb.
    destruct (path_parent (c :: p)) as [|c' p'] eqn:Ep; [done |].
    destruct Hpar as [? | Hpar]; [done |].
    assert (fs wb !! (c' :: p') = Some Dir) as ->; [| done].
    eapply kept_Dir; [exact Hkb |]. eapply kept_Dir; [exact Hkept |].
    rewrite lookup_insert_ne; [done |].
    rewrite <- Ep. intros E. symmetry in E. by apply path_parent_ne in E.
  - split; [by eapply confined_trans |].
    split.
    + intros q x Hx. destruct (decide (q = p)) as [-> | Hqp].
      * rewrite lookup_insert_eq. rewrite Hf1 in Hx. inversion Hx; subst.
        by exists (File d).
      * rewrite lookup_insert_ne by done. by apply Hkb.
    + intros q. destruct (decide (q = p)) as [-> | Hqp].
      * left. by rewrite !lookup_insert_eq.
      * rewrite !lookup_insert_ne by done. apply Hq.
Qed.

Lemma replays_write_file root f0 f1 p d :
  root `prefix_of` p -> replays root f0 f1 (write_file p d).
Proof.
  intros Hp wa [] wa' wb Ha Hkept Hrel.
  destruct (write_file_replay _ _ _ _ _ _ _ _ Hp Ha Hkept Hrel)
    as (Hb & _ & Hrel').
  eexists. split; [exact Hb | done].
Qed.

Lemma replays_read_file root f0 f1 p :
  confined root f0 f1 -> ¬ root `prefix_of` p ->
  replays root f0 f1 (read_file p).
Proof.
  intros Hf1 Hp wa d wa' wb Ha Hkept (Hc & Hkb & Hq).
  unfold read_file in *. destruct p as [|c p]; [done |].
  destruct (fs wa !! (c :: p)) as [[|d0]|] eqn:Ea; try done.
  inversion Ha; subst d0 wa'; clear Ha.
  assert (f0 !! (c :: p) = Some (File d)) as E0.
  { destruct (Hc _ Hp) as [E | (_ & E & _)]; [by rewrite <- E |].
    by rewrite Ea in E. }
  assert (f1 !! (c :: p) = Some (File d)) as E1.
  { destruct (Hf1 _ Hp) as [E | (E & _)]; [by rewrite E |].
    by rewrite E0 in E. }
  exists wb. split; [| done].
  destruct (Hq (c :: p)) as [-> | ->]; by rewrite ?Ea, ?E1.
Qed.

Lemma replays_write_images root f0 f1 dir imgs :
  root `prefix_of` dir -> replays root f0 f1 (write_images dir imgs).
Proof.
  intros Hd. induction imgs as [|[name data] imgs IH]; simpl.
  - apply replays_ret.
  - apply replays_bind; [| intros _; apply keeps_entries_write_images
                         | by intros _].
    apply replays_write_file. by apply prefix_app_r.
Qed.

Ltac keeps_entries_rest :=
  repeat match goal with
  | |- keeps_entries (bind _ _) => apply keeps_entries_bind; [| intros ?]
  | |- keeps_entries (if ?b then _ else _) => destruct b
  | |- keeps_entries (match ?x with OCR => _ | TXT => _ end) => destruct x
  | |- keeps_entries (write_images _ _) => apply keeps_entries_write_images
  | |- keeps_entries (os_makedirs _) => apply keeps_entries_os_makedirs
  | |- keeps_entries (write_file _ _) => apply keeps_entries_write_file
  | |- keeps_entries (read_file _) => apply keeps_entries_read_file
  | |- keeps_entries (shutil_copyfile _ _) => unfold shutil_copyfile
  | |- keeps_entries _ =>
      solve [apply keeps_entries_same_fs; intros; reflexivity]
  end.

Lemma shutil_copyfile_Ok src dst w d :
  src ≠ dst -> fs w !! src = Some (File d) -> src ≠ [] ->
  shutil_copyfile src dst w = write_file dst d w.
Proof.
  intros Hne Hsrc Hnil. unfold shutil_copyfile, bind, os_path_exists, ret.
  rewrite bool_decide_eq_false_2 by done. rewrite andb_false_r.
  unfold read_file. destruct src as [|c src]; [done |]. by rewrite Hsrc.
Qed.

Lemma shutil_copyfile_Ok_write src dst w w' d :
  fs w !! src = Some (File d) ->
  shutil_copyfile src dst w = (Ok tt, w') ->
  src ≠ dst /\ src ≠ [] /\ write_file dst d w = (Ok tt, w').
Proof.
  intros Hsrc H.
  destruct (shutil_copyfile_Ok_inv _ _ _ _ _ Hsrc H) as [Hne _].
  assert (src ≠ []) as Hnil.
  { intros ->. unfold shutil_copyfile, bind, os_path_exists, ret in H.
    rewrite bool_decide_eq_false_2 in H by done. by simpl in H. }
  split; [done |]. split; [done |].
  by rewrite <- (shutil_copyfile_Ok _ _ _ _ Hne Hsrc Hnil).
Qed.

(** Lines 66 to 73: the markdown is written, found, and copied. *)
Lemma replays_md_copy {A} root f0 f1 (r : result bytes) (src dst : path)
  (rest : M A) :
  root `prefix_of` src -> root `prefix_of` dst ->
  keeps_entries rest -> replays root f0 f1 rest ->
  replays root f0 f1
    ((data <- lift r ;; write_file src data) ;;;
     found <- os_path_exists src ;;
     (if found then shutil_copyfile src dst else ret tt) ;;;
     rest).
Proof.
  intros Hsrc Hdst Hkr Hr wa a wa' wb Ha Hkept Hrel.
  apply bind_Ok_inv in Ha as ([] & wa1 & Hw & Ha).
  apply bind_Ok_inv in Hw as (md & wx & Hl & Hw).
  unfold lift in Hl. inversion Hl; subst r wx; clear Hl.
  apply bind_Ok_inv in Ha as (found & wx & Hex & Ha).
  unfold os_path_exists in Hex. inversion Hex; subst found wx; clear Hex.
  apply bind_Ok_inv in Ha as ([] & wa2 & Hcp & Ha).
  assert (kept (fs wa2) f1) as Hk2.
  { eapply kept_trans; [| exact Hkept].
    pose proof (Hkr wa2) as H. by rewrite Ha in H. }
  pose proof (write_file_Ok_inv _ _ _ _ Hw) as Hf1.
  assert (fs wa1 !! src = Some (File md)) as Hsa
    by (rewrite Hf1; apply lookup_insert_eq).
  assert (exists_in (fs wa1) src = true) as Hexa
    by (unfold exists_in; rewrite Hsa; by destruct src).
  rewrite Hexa in Hcp.
  apply (shutil_copyfile_Ok_write _ _ _ _ _ Hsa) in Hcp as (Hne & Hnil & Hcp).
  assert (kept (fs wa1) f1) as Hk1.
  { eapply kept_trans; [| exact Hk2].
    pose proof (keeps_entries_write_file dst md wa1) as H.
    by rewrite Hcp in H. }
  destruct (write_file_replay _ _ _ _ _ _ _ _ Hsrc Hw Hk1 Hrel)
    as (Hwb & _ & Hrel1).
  set (wb1 := set_fs (<[src := File md]> (fs wb)) wb) in *.
  assert (fs wb1 !! src = Some (File md)) as Hsb
    by (subst wb1; destruct wb; simpl; apply lookup_insert_eq).
  assert (fs wb1 = <[src := File md]> (fs wb)) as Hfb1
    by (subst wb1; by destruct wb).
  rewrite <- Hfb1 in Hrel1.
  destruct (write_file_replay _ _ _ _ _ _ _ _ Hdst Hcp Hk2 Hrel1)
    as (Hcb & _ & Hrel2).
  set (wb2 := set_fs (<[dst := File md]> (fs wb1)) wb1) in *.
  assert (fs wb2 = <[dst := File md]> (fs wb1)) as Hfb2
    by (subst wb2; by destruct wb1).
  rewrite <- Hfb2 in Hrel2.
  destruct (Hr _ _ _ _ Ha Hkept Hrel2) as (wb' & Hb & Hrel').
  exists wb'. split; [| done].
  assert ((data <- lift (Ok md) ;; write_file src data) wb = (Ok tt, wb1))
    as E1 by (unfold bind, lift; exact Hwb).
  rewrite (bind_Ok _ _ _ _ _ E1). cbv beta.
  assert (os_path_exists src wb1 = (Ok true, wb1)) as E2.
  { unfold os_path_exists, exists_in. rewrite Hsb. by destruct src. }
  rewrite (bind_Ok _ _ _ _ _ E2). cbv beta iota.
  assert (shutil_copyfile src dst wb1 = (Ok tt, wb2)) as E3
    by (rewrite (shutil_copyfile_Ok _ _ _ _ Hne Hsb Hnil); exact Hcb).
  by rewrite (bind_Ok _ _ _ _ _ E3).
Qed.

Ltac replays_step :=
  match goal with
  | |- replays _ _ _ (bind (bind (lift _) _) (fun _ => bind (os_path_exists _) _)) =>
      apply replays_md_copy; [below_root | below_root | keeps_entries_rest |]
  | |- replays _ _ _ (bind _ _) =>
      apply replays_bind; [| intros ?; keeps_entries_rest | intros ?]
  | |- replays _ _ _ (match ?x with OCR => _ | TXT => _ end) => destruct x
  | |- replays _ _ _ (os_makedirs _) => apply replays_os_makedirs; below_root
  | |- replays _ _ _ (write_file _ _) => apply replays_write_file; below_root
  | |- replays _ _ _ (write_images _ _) =>
      apply replays_write_images; below_root
  | |- replays _ _ _ (lift _) => apply replays_lift
  | |- replays _ _ _ (ret _) => apply replays_ret
  end.

Lemma replays_process_body pl pdf_path output_root f0 f1 :
  confined output_root f0 f1 -> ¬ output_root `prefix_of` pdf_path ->
  replays output_root f0 f1 (process_body pl pdf_path output_root).
Proof.
  intros Hf1 Hp.
  unfold process_body, reader_read, analyse, run_pipe,
    draw_layout, draw_span, dump_md, dump_content_list, dump_middle_json,
    writer_write.
  repeat first [by apply replays_read_file | replays_step].
Qed.

(** X16. Processing a file again after a success changes nothing.  When the
    worker returned a name for an input file that lies outside the output
    root, running it again on the world it left returns the same name and
    leaves this world exactly as it is: the same files with the same
    bytes, nothing printed, whatever the analysis library computes from
    the bytes of the file.  (With the stem [..] the worker writes in the
    parent of the output root, where the input file may be.) *)
Theorem process_single_pdf_rerun (pl : Pipeline)
  (pdf_path output_root : path) (token : string) (w w1 : world) :
  path_stem pdf_path ≠ ".." ->
  ¬ output_root `prefix_of` pdf_path ->
  process_single_pdf pl (pdf_path, output_root) w = (Ok (Some token), w1) ->
  process_single_pdf pl (pdf_path, output_root) w1 = (Ok (Some token), w1).
Proof.
  intros _ Hp H.
  pose proof (writes_under_process_single_pdf pl pdf_path output_root w) as Hc.
  rewrite H in Hc. simpl in Hc.
  unfold process_single_pdf, try_except in *.
  destruct (process_body pl pdf_path output_root w) as [[r|e] wa'] eqn:Ea;
    [| by inversion H].
  inversion H; subst r wa'; clear H.
  destruct (replays_process_body pl pdf_path output_root (fs w) (fs w1)
              Hc Hp w (Some token) w1 w1 Ea (kept_refl _))
    as (wb' & Eb & _ & _ & Hq).
  { split; [apply confined_refl |]. split; [apply kept_refl | by right]. }
  rewrite Eb.
  pose proof (fs_only_process_body pl pdf_path output_root w1) as [Hl Ht].
  rewrite Eb in Hl, Ht. simpl in Hl, Ht.
  assert (fs wb' = fs w1) as Hfs.
  { apply map_eq. intros q. by destruct (Hq q). }
  destruct wb', w1; simpl in *. by subst.
Qed.

Lemma process_single_pdf_rerun_witness :
  let w1 := snd (process_single_pdf demo_pipeline (["in"; "a.pdf"], ["out"])
                   demo_world) in
  process_single_pdf demo_pipeline (["in"; "a.pdf"], ["out"]) w1
  = (Ok (Some "a.pdf"), w1).
Proof.
  apply (process_single_pdf_rerun demo_pipeline ["in"; "a.pdf"] ["out"]
           "a.pdf" demo_world).
  - vm_compute. discriminate.
  - by intros [k Hk].
  - vm_compute. reflexivity.
Defined.

(** ** The footprint of the worker *)

Lemma changes_within_same_fs {A} P (m : M A) :
  (forall w, fs (snd (m w)) = fs w) -> changes_within P m.
Proof. intros H w q _. left. by rewrite H. Qed.

Lemma changes_within_bind {A B} P (m : M A) (k : A -> M B) :
  changes_within P m -> (forall a, changes_within P (k a)) ->
  changes_within P (bind m k).
Proof.
  intros Hm Hk w q Hq. unfold bind. specialize (Hm w q Hq).
  destruct (m w) as [[a|e] w1]; simpl in *; [| done].
  destruct (Hk a w1 q Hq) as [E | [N D]].
  - by rewrite E.
  - destruct Hm as [E | [N' D']]; [right; by rewrite <- E |].
    by rewrite N in D'.
Qed.

Lemma changes_within_try_except {A} P (m : M A) (h : exn -> M A) :
  changes_within P m -> (forall e, changes_within P (h e)) ->
  changes_within P (try_except m h).
Proof.
  intros Hm Hh w q Hq. unfold try_except. specialize (Hm w q Hq).
  destruct (m w) as [[a|e] w1]; simpl in *; [done |].
  destruct (Hh e w1 q Hq) as [E | [N D]].
  - by rewrite E.
  - destruct Hm as [E | [N' D']]; [right; by rewrite <- E |].
    by rewrite N in D'.
Qed.

Lemma changes_within_os_makedirs P p : changes_within P (os_makedirs p).
Proof.
  intros w q _. unfold os_makedirs.
  destruct (makedirs_from [] p (fs w)) as [f'|e] eqn:E; simpl; [| by left].
  destruct (makedirs_from_changes _ _ _ _ E q) as [? | (N & D & _)];
    [by left | by right].
Qed.

Lemma changes_within_write_file (P : path -> Prop) p d :
  P p -> changes_within P (write_file p d).
Proof.
  intros Hp w q Hq. left. unfold write_file.
  destruct (is_dir (fs w) p); [done |].
  destruct (is_dir (fs w) (path_parent p));
    [| by destruct (exists_in (fs w) (path_parent p))].
  simpl. apply lookup_insert_ne. by intros ->.
Qed.

Lemma changes_within_read_file P p : changes_within P (read_file p).
Proof.
  apply changes_within_same_fs. intros w. unfold read_file.
  destruct p; [done |]. by destruct (fs w !! _) as [[|]|].
Qed.

Lemma changes_within_write_images (P : path -> Prop) dir imgs :
  (forall n, P (dir ++ [n])) -> changes_within P (write_images dir imgs).
Proof.
  intros Hd. induction imgs as [|[name data] imgs IH]; simpl.
  - by apply changes_within_same_fs.
  - unfold writer_write. apply changes_within_bind; [| by intros ?].
    by apply changes_within_write_file.
Qed.

Ltac in_footprint :=
  unfold footprint, output_files;
  first [ left; rewrite <- ?app_assoc; simpl; rewrite !elem_of_cons; tauto
        | right; eexists; rewrite <- ?app_assoc; simpl; reflexivity ].

Ltac changes_within_step :=
  match goal with
  | |- changes_within _ (bind _ _) => apply changes_within_bind; [| intros ?]
  | |- changes_within _ (try_except _ _) =>
      apply changes_within_try_except; [| intros ?]
  | |- changes_within _ (if ?b then _ else _) => destruct b
  | |- changes_within _ (match ?x with OCR => _ | TXT => _ end) => destruct x
  | |- changes_within _ (os_makedirs _) => apply changes_within_os_makedirs
  | |- changes_within _ (write_file _ _) =>
      apply changes_within_write_file; in_footprint
  | |- changes_within _ (write_images _ _) =>
      apply changes_within_write_images; intros ?; in_footprint
  | |- changes_within _ (read_file _) => apply changes_within_read_file
  | |- changes_within _ _ =>
      solve [apply changes_within_same_fs; intros; reflexivity]
  end.

Lemma changes_within_process_single_pdf pl pdf_path output_root :
  changes_within (footprint output_root (path_stem pdf_path))
    (process_single_pdf pl (pdf_path, output_root)).
Proof.
  unfold process_single_pdf, process_body, reader_read, analyse, run_pipe,
    draw_layout, draw_span, dump_md, dump_content_list, dump_middle_json,
    writer_write, shutil_copyfile.
  repeat changes_within_step.
Qed.

(** X17. The worker creates or overwrites regular files nowhere but at
    its six output paths and directly in its image directory.  At every
    other path, whatever it returns, the entry is as before, or is a
    directory made where there was nothing.  This is for a file whose
    stem is not [.] or [..]. *)
Theorem process_single_pdf_footprint (pl : Pipeline)
  (pdf_path output_root : path) (w : world) (q : path) :
  ¬ special (path_stem pdf_path) ->
  ¬ footprint output_root (path_stem pdf_path) q ->
  let w' := snd (process_single_pdf pl (pdf_path, output_root) w) in
  fs w' !! q = fs w !! q \/ (fs w !! q = None /\ fs w' !! q = Some Dir).
Proof. intros _. apply changes_within_process_single_pdf. Qed.

Lemma process_single_pdf_footprint_witness :
  let w' := snd (process_single_pdf demo_pipeline (["in"; "a.pdf"], ["out"])
                   demo_world) in
  fs w' !! ["in"; "b.pdf"] = fs demo_world !! ["in"; "b.pdf"]
  \/ (fs demo_world !! ["in"; "b.pdf"] = None
      /\ fs w' !! ["in"; "b.pdf"] = Some Dir).
Proof.
  apply (process_single_pdf_footprint demo_pipeline ["in"; "a.pdf"] ["out"]
           demo_world ["in"; "b.pdf"]).
  - intros [H | H]; vm_compute in H; discriminate H.
  - intros [H | [n H]]; [| discriminate H].
    vm_compute in H.
    repeat (apply elem_of_cons in H as [H | H]; [discriminate H |]).
    by apply elem_of_nil in H.
Defined.

(** ** Workers of different files *)

Lemma list_ascii_of_string_app a b :
  String.list_ascii_of_string (a +:+ b)
  = String.list_ascii_of_string a ++ String.list_ascii_of_string b.
Proof.
  induction a as [|c a IH]; [done |].
  rewrite append_cons. simpl. by rewrite IH.
Qed.

Lemma append_inj_r (a b s : string) : a +:+ s = b +:+ s -> a = b.
Proof.
  intros E. apply (f_equal String.list_ascii_of_string) in E.
  rewrite !list_ascii_of_string_app in E. apply app_inv_tail in E.
  apply (f_equal String.string_of_list_ascii) in E.
  by rewrite !String.string_of_list_ascii_of_string in E.
Qed.

Lemma last_char_append s t :
  t ≠ "" -> last_char (s +:+ t) = last_char t.
Proof.
  intros Ht. unfold last_char. rewrite list_ascii_of_string_app, last_app.
  destruct t as [|c t]; [done |]. simpl.
  by destruct (last (c :: String.list_ascii_of_string t)) eqn:E;
    [| apply last_None in E].
Qed.

Ltac other_stem :=
  let E := fresh "E" in
  intros E; try (apply (f_equal length) in E; rewrite !length_app in E;
                 simpl in E; lia);
  apply app_inv_head in E; inversion E; subst;
  try congruence;
  try match goal with
      | H : _ +:+ ".md" = _ +:+ ".md" |- _ =>
          apply append_inj_r in H; congruence
      end;
  match goal with
  | H : _ +:+ _ = _ +:+ _ |- _ =>
      apply (f_equal last_char) in H;
      rewrite !last_char_append in H by done; discriminate H
  end.

(** The output files of one stem are outside the footprint of another. *)
Lemma footprint_disjoint root s1 s2 q :
  s1 ≠ s2 -> s1 ≠ "markdowns" ->
  q ∈ output_files root s1 -> ¬ footprint root s2 q.
Proof.
  intros Hne Hm Hq [Hf | [n Hf]]; unfold output_files in *;
    repeat (apply elem_of_cons in Hq as [-> | Hq]);
    try (by apply elem_of_nil in Hq).
  all: try (revert Hf; other_stem).
  all: repeat (apply elem_of_cons in Hf as [Hf | Hf]);
    try (by apply elem_of_nil in Hf).
  all: revert Hf; other_stem.
Qed.

(** X18. Processing one file leaves the output files of a file with
    another stem as they are, byte for byte.  The stem [markdowns] is set
    apart: its own directory is the directory of the collected copies.
    So are the stems [.] and [..]. *)
Theorem process_single_pdf_keeps_other_outputs (pl : Pipeline)
  (p1 p2 output_root : path) (w : world) (q : path) (d : bytes) :
  ¬ special (path_stem p1) ->
  ¬ special (path_stem p2) ->
  path_stem p1 ≠ path_stem p2 ->
  path_stem p1 ≠ "markdowns" ->
  q ∈ output_files output_root (path_stem p1) ->
  fs w !! q = Some (File d) ->
  fs (snd (process_single_pdf pl (p2, output_root) w)) !! q = Some (File d).
Proof.
  intros _ _ Hne Hm Hq Hd.
  destruct (changes_within_process_single_pdf pl p2 output_root w q)
    as [E | [N _]].
  - by eapply footprint_disjoint.
  - by rewrite E.
  - by rewrite Hd in N.
Qed.

Lemma process_single_pdf_keeps_other_outputs_witness :
  let w1 := snd (process_single_pdf demo_pipeline (["in"; "a.pdf"], ["out"])
                   two_pdfs) in
  fs (snd (process_single_pdf demo_pipeline (["in"; "b.pdf"], ["out"]) w1))
    !! ["out"; "markdowns"; "a.md"] = Some (File "# md").
Proof.
  apply (process_single_pdf_keeps_other_outputs demo_pipeline
           ["in"; "a.pdf"] ["in"; "b.pdf"] ["out"]).
  - intros [H | H]; vm_compute in H; discriminate H.
  - intros [H | H]; vm_compute in H; discriminate H.
  - vm_compute. discriminate.
  - vm_compute. discriminate.
  - replace (path_stem ["in"; "a.pdf"]) with "a" by reflexivity.
    unfold output_files. simpl. rewrite !elem_of_cons. tauto.
  - vm_compute. reflexivity.
Defined.

(** ** The footprint of a run *)

Lemma changed_at_trans (f1 f2 f3 : gmap path node) q :
  f2 !! q = f1 !! q \/ (f1 !! q = None /\ f2 !! q = Some Dir) ->
  f3 !! q = f2 !! q \/ (f2 !! q = None /\ f3 !! q = Some Dir) ->
  f3 !! q = f1 !! q \/ (f1 !! q = None /\ f3 !! q = Some Dir).
Proof.
  intros [E1 | [N1 D1]] [E2 | [N2 D2]].
  - left. by rewrite E2.
  - right. by rewrite <- E1.
  - right. by rewrite E2.
  - by rewrite N2 in D1.
Qed.

Lemma changes_within_mono {A} (P Q : path -> Prop) (m : M A) :
  (forall q, P q -> Q q) -> changes_within P m -> changes_within Q m.
Proof. intros HPQ Hm w q Hq. apply Hm. intros HP. by apply Hq, HPQ. Qed.

Lemma changes_within_handle_result P r st :
  changes_within P (handle_result r st).
Proof.
  apply changes_within_same_fs. intros w.
  by destruct (handle_result_effect r st w) as (sv & Hfs & _).
Qed.

Lemma changes_within_pool_call pl p out :
  changes_within (footprint out (path_stem p))
    (pool_call (process_single_pdf pl) (p, out)).
Proof.
  unfold pool_call. apply changes_within_bind.
  - apply changes_within_process_single_pdf.
  - intros r. by apply changes_within_same_fs.
Qed.

Lemma changes_within_imap_loop pl order : forall st,
  changes_within (tasks_footprint order) (imap_loop pl order st).
Proof.
  induction order as [|[p out] order IH]; intros st; cbn [imap_loop].
  - by apply changes_within_same_fs.
  - apply changes_within_bind; [| intros r; apply changes_within_bind].
    + eapply changes_within_mono; [| apply changes_within_pool_call].
      intros q Hq. exists (p, out). split; [left | done].
    + apply changes_within_handle_result.
    + intros st'. eapply changes_within_mono; [| apply IH].
      intros q (t & Ht & Hq). exists t. split; [by right | done].
Qed.

Lemma changes_within_batch_scan P pdf_dir output_dir :
  changes_within P (batch_scan pdf_dir output_dir).
Proof.
  unfold batch_scan.
  apply changes_within_bind; [apply changes_within_os_makedirs | intros _].
  apply changes_within_bind; [by apply changes_within_same_fs | intros all].
  apply changes_within_bind; [| intros S; by apply changes_within_same_fs].
  apply changes_within_same_fs, load_processed_files_same_fs.
Qed.

Lemma batch_changes sch pl pdf_dir output_dir max_workers w q :
  (forall p,
     p ∈ glob_paths (fs (snd (os_makedirs output_dir w))) pdf_dir "*.pdf" ->
     path_name p ∉ ledger_set (ledger w) ->
     ¬ footprint output_dir (path_stem p) q) ->
  let w' := snd (batch sch pl pdf_dir output_dir max_workers w) in
  fs w' !! q = fs w !! q \/ (fs w !! q = None /\ fs w' !! q = Some Dir).
Proof.
  intros Hq. simpl.
  pose proof (changes_within_batch_scan (fun _ => False) pdf_dir output_dir
                w q (fun H => H)) as Hscan.
  unfold batch.
  destruct (batch_scan pdf_dir output_dir w) as [[[[all S0] tasks]|e] w1] eqn:Es;
    simpl in Hscan.
  - rewrite (bind_Ok _ _ _ _ _ Es); cbv beta iota.
    pose proof (batch_scan_tasks _ _ _ _ _ _ _ Es) as (_ & _ & _ & Hin).
    pose proof (batch_scan_Ok_inv _ _ _ _ _ _ _ Es)
      as (Hm & _ & _ & Hall & _ & HS0 & _).
    assert (fs (snd (os_makedirs output_dir w)) = fs w1) as Hfs1
      by (unfold os_makedirs; by rewrite Hm).
    rewrite Hfs1, <- Hall in Hq.
    eapply changed_at_trans; [exact Hscan |].
    assert (changes_within (tasks_footprint (completion sch tasks))
              (print (FoundLine (length all) (size S0) (length tasks)) ;;;
               Pool max_workers ;;;
               st <- imap_loop pl (completion sch tasks) (S0, []) ;;
               print (DoneLine (length (snd st))) ;;;
               save_processed_files (fst st))) as Hrest.
    { apply changes_within_bind; [by apply changes_within_same_fs | intros _].
      apply changes_within_bind; [| intros _].
      { unfold Pool. destruct (max_workers <? 1);
          by apply changes_within_same_fs. }
      apply changes_within_bind; [apply changes_within_imap_loop | intros st].
      apply changes_within_bind; [by apply changes_within_same_fs | intros _].
      apply changes_within_same_fs, save_processed_files_same_fs. }
    apply Hrest. intros (t & Ht & Hf).
    rewrite completion_perm in Ht. apply Hin in Ht as (Hout & Hp & Hn).
    rewrite Hout in Hf. apply (Hq (fst t)); [done | by rewrite <- HS0 | done].
  - rewrite (bind_Raise _ _ _ _ _ Es). exact Hscan.
Qed.




(** X20. The outputs of a stem that no dispatched file has are as they
    were when the run of [batch] ends, byte for byte: the results of
    earlier runs for the files the ledger makes it skip are not touched.
    This is for a run that dispatches no file with the stem [.] or
    [..], and for a stem other than [markdowns]. *)
Theorem batch_keeps_skipped_outputs (sch : Schedule) (pl : Pipeline)
  (pdf_dir output_dir : path) (max_workers : Z) (w : world)
  (stem : string) (q : path) (d : bytes) :
  stem ≠ "markdowns" ->
  (forall p,
     p ∈ glob_paths (fs (snd (os_makedirs output_dir w))) pdf_dir "*.pdf" ->
     path_name p ∉ ledger_set (ledger w) ->
     ¬ special (path_stem p) /\ path_stem p ≠ stem) ->
  q ∈ output_files output_dir stem ->
  fs w !! q = Some (File d) ->
  fs (snd (batch sch pl pdf_dir output_dir max_workers w)) !! q
  = Some (File d).
Proof.
  intros Hm Hst Hq Hd.
  destruct (batch_changes sch pl pdf_dir output_dir max_workers w q)
    as [E | [N _]].
  - intros p Hp Hn. eapply footprint_disjoint; [| done | done].
    intros E. by apply (Hst p Hp Hn).
  - by rewrite E.
  - by rewrite Hd in N.
Qed.

(** ** The outputs of a run at its end *)

Lemma imap_loop_after pl order : forall st w,
  NoDup order ->
  exists tr,
    trace (snd (imap_loop pl order st w)) = trace w ++ tr
    /\ forall t r, (t, r) ∈ pool_log tr ->
         exists wb wa,
           process_single_pdf pl t wb = (Ok r, wa)
           /\ changed_within (others_footprint order t) (fs wa)
                (fs (snd (imap_loop pl order st w))).
Proof.
  induction order as [|[p out] order IH]; intros st w Hnd.
  - exists []. simpl. split; [by rewrite app_nil_r |].
    intros t r Hin. by apply elem_of_nil in Hin.
  - apply NoDup_cons in Hnd as [Hnotin Hnd]. cbn [imap_loop].
    assert (exists r0 w0 pr,
              process_single_pdf pl (p, out) w = (Ok r0, w0)
              /\ trace w0 = trace w ++ pr /\ pool_log pr = [])
      as (r0 & w0 & pr & Hwork & Htr0 & Hpr).
    { destruct (process_single_pdf_cases pl p out w)
        as (w0 & _ & [[E Ht] | (e & E & Ht)]).
      - exists (Some (path_name p)), w0, []. by rewrite app_nil_r.
      - by exists None, w0, [Print (FailedLine (path_name p) e)]. }
    set (w1 := emit (Complete (p, out) r0) w0).
    assert (pool_call (process_single_pdf pl) (p, out) w = (Ok r0, w1))
      as Hcall by (unfold pool_call; by rewrite (bind_Ok _ _ _ _ _ Hwork)).
    rewrite (bind_Ok _ _ _ _ _ Hcall); cbv beta.
    destruct (handle_result_effect r0 st w1) as (sv & Hfs2 & Htr2 & Hsv).
    destruct (handle_result r0 st w1) as [[st'|e] w2] eqn:Eh;
      simpl in Hfs2, Htr2;
      [rewrite (bind_Ok _ _ _ _ _ Eh) | rewrite (bind_Raise _ _ _ _ _ Eh)];
      cbv beta.
    + destruct (IH st' w2 Hnd) as (tr' & Htr' & Hlog').
      pose proof (changes_within_imap_loop pl order st' w2) as Hc2.
      exists (pr ++ [Complete (p, out) r0] ++ sv ++ tr').
      split.
      { rewrite Htr', Htr2. unfold w1. simpl. rewrite Htr0.
        by rewrite <- !app_assoc. }
      intros t r. rewrite !pool_log_app, Hpr, Hsv. simpl.
      intros [Hin | Hin]%elem_of_cons.
      * inversion Hin; subst t r. exists w, w0. split; [done |].
        intros q Hq. rewrite Hfs2 in Hc2. apply Hc2.
        intros (t & Ht & Hf). apply Hq. exists t.
        split; [by right |]. split; [| done]. by intros ->.
      * destruct (Hlog' _ _ Hin) as (wb & wa & Hw & Hch).
        exists wb, wa. split; [done |].
        intros q Hq. apply Hch.
        intros (t' & Ht' & Hne & Hf). apply Hq. exists t'.
        split; [by right | done].
    + exists (pr ++ [Complete (p, out) r0] ++ sv). simpl.
      split.
      { rewrite Htr2. unfold w1. simpl. rewrite Htr0.
        by rewrite <- !app_assoc. }
      intros t r. rewrite pool_log_app, Hpr, pool_log_cons_Complete, Hsv.
      simpl. intros Hin%list_elem_of_singleton. inversion Hin; subst t r.
      exists w, w0. split; [done |]. intros q _. left. by rewrite Hfs2.
Qed.

Lemma batch_workers_after sch pl pdf_dir output_dir max_workers w :
  exists tr,
    trace (snd (batch sch pl pdf_dir output_dir max_workers w)) = trace w ++ tr
    /\ forall t r, (t, r) ∈ pool_log tr ->
         snd t = output_dir
         /\ exists wb wa,
              process_single_pdf pl t wb = (Ok r, wa)
              /\ forall q,
                   (forall p,
                      p ∈ glob_paths (fs (snd (os_makedirs output_dir w)))
                            pdf_dir "*.pdf" ->
                      p ≠ fst t ->
                      ¬ footprint output_dir (path_stem p) q) ->
                   let f' :=
                     fs (snd (batch sch pl pdf_dir output_dir max_workers w)) in
                   f' !! q = fs wa !! q
                   \/ (fs wa !! q = None /\ f' !! q = Some Dir).
Proof.
  pose proof (fs_only_batch_scan pdf_dir output_dir w) as [_ Hts].
  unfold batch.
  destruct (batch_scan pdf_dir output_dir w) as [[[[all S0] tasks]|e] w1] eqn:Es;
    simpl in Hts.
  - rewrite (bind_Ok _ _ _ _ _ Es); cbv beta iota.
    pose proof (batch_scan_tasks _ _ _ _ _ _ _ Es) as (Hnd & _ & _ & Hin).
    pose proof (batch_scan_Ok_inv _ _ _ _ _ _ _ Es)
      as (Hm & _ & _ & Hall & _).
    assert (fs (snd (os_makedirs output_dir w)) = fs w1) as Hfs1.
    { unfold os_makedirs. by rewrite Hm. }
    rewrite Hfs1, <- Hall.
    assert (forall t q,
              t ∈ completion sch tasks ->
              (forall p, p ∈ all -> p ≠ fst t ->
                         ¬ footprint output_dir (path_stem p) q) ->
              ¬ others_footprint (completion sch tasks) t q) as Hothers.
    { intros t q Ht Hq (t' & Ht' & Hne & Hf).
      rewrite completion_perm in Ht, Ht'.
      apply Hin in Ht as (Ho & _), Ht' as (Ho' & Ha' & _).
      rewrite Ho' in Hf. apply (Hq (fst t')); [done | | done].
      intros E. apply Hne. destruct t, t'; simpl in *. by subst. }
    set (found := FoundLine (length all) (size S0) (length tasks)).
    set (w2 := emit (Print found) w1).
    rewrite (bind_Ok _ _ w1 tt w2) by reflexivity.
    unfold Pool. destruct (max_workers <? 1).
    + rewrite (bind_Raise _ _ w2 _ w2) by reflexivity.
      exists [Print found]. simpl. split; [by rewrite Hts |].
      intros t r Hl. by apply elem_of_nil in Hl.
    + rewrite (bind_Ok _ _ w2 tt w2) by reflexivity.
      assert (NoDup (completion sch tasks)) as Hnd'
        by (by rewrite completion_perm).
      destruct (imap_loop_after pl (completion sch tasks) (S0, []) w2 Hnd')
        as (tr & Htr & Hlog).
      assert (forall t r, (t, r) ∈ pool_log tr -> t ∈ completion sch tasks)
        as Hord.
      { intros t r Hl.
        destruct (imap_loop_workers pl (completion sch tasks) (S0, []) w2)
          as (tr0 & Htr0 & Hlog0).
        rewrite Htr in Htr0. apply app_inv_head in Htr0. subst tr0.
        by destruct (Hlog0 _ _ Hl). }
      destruct (imap_loop pl (completion sch tasks) (S0, []) w2)
        as [[st|e] w3] eqn:El; simpl in Htr, Hlog;
        [rewrite (bind_Ok _ _ _ _ _ El)
        | rewrite (bind_Raise _ _ _ _ _ El)]; cbv beta.
      * set (w4 := emit (Print (DoneLine (length (snd st)))) w3).
        rewrite (bind_Ok _ _ w3 tt w4) by reflexivity.
        pose proof (save_processed_files_same_fs (fst st) w4) as Hsf.
        destruct (save_processed_files_trace (fst st) w4)
          as (sv0 & Htr4 & Hsv0).
        set (sv := Print (DoneLine (length (snd st))) :: sv0).
        assert (pool_log sv = []) as Hsv by done.
        assert (trace (snd (save_processed_files (fst st) w4))
                = trace w3 ++ sv) as Htr4'.
        { rewrite Htr4. unfold w4, sv. simpl. by rewrite <- app_assoc. }
        clear Htr4. rename Htr4' into Htr4.
        exists (Print found :: tr ++ sv).
        split; [rewrite Htr4, Htr; simpl; rewrite Hts;
                by rewrite <- !app_assoc |].
        intros t r. rewrite pool_log_cons_Print, pool_log_app, Hsv, app_nil_r.
        intros Hl. destruct (Hlog _ _ Hl) as (wb & wa & Hw & Hch).
        pose proof (Hord _ _ Hl) as Ht.
        split.
        { rewrite completion_perm in Ht. by apply Hin in Ht as (? & _). }
        exists wb, wa. split; [done |].
        intros q Hq. simpl. rewrite Hsf. apply Hch. by apply Hothers.
      * exists (Print found :: tr).
        split; [simpl; rewrite Htr; simpl; rewrite Hts; by rewrite <- app_assoc |].
        intros t r. rewrite pool_log_cons_Print.
        intros Hl. destruct (Hlog _ _ Hl) as (wb & wa & Hw & Hch).
        pose proof (Hord _ _ Hl) as Ht.
        split.
        { rewrite completion_perm in Ht. by apply Hin in Ht as (? & _). }
        exists wb, wa. split; [done |].
        intros q Hq. simpl. apply Hch. by apply Hothers.
  - rewrite (bind_Raise _ _ _ _ _ Es). exists []. simpl.
    split; [by rewrite Hts, app_nil_r |].
    intros t r Hl. by apply elem_of_nil in Hl.
Qed.

(** X21. In every run of [batch], the outputs of a file whose worker
    returned a name are, when the run ends, the files this worker wrote,
    byte for byte: no worker that ran after it has written over them.
    This holds for every file whose stem no other enumerated file has, in
    a run that enumerates no file with the stem [.] or [..]. *)
Theorem batch_outputs_intact (sch : Schedule) (pl : Pipeline)
  (pdf_dir output_dir : path) (max_workers : Z) (w : world) :
  (forall p,
     p ∈ glob_paths (fs (snd (os_makedirs output_dir w))) pdf_dir "*.pdf" ->
     ¬ special (path_stem p)) ->
  let w' := snd (batch sch pl pdf_dir output_dir max_workers w) in
  exists tr,
    trace w' = trace w ++ tr
    /\ forall t name,
         (t, Some name) ∈ pool_log tr ->
         (forall p,
            p ∈ glob_paths (fs (snd (os_makedirs output_dir w)))
                  pdf_dir "*.pdf" ->
            p ≠ fst t -> path_stem p ≠ path_stem (fst t)) ->
         exists wb wa,
           process_single_pdf pl t wb = (Ok (Some name), wa)
           /\ forall q,
                q ∈ output_files output_dir (path_stem (fst t)) ->
                exists d, fs wa !! q = Some (File d)
                          /\ fs w' !! q = Some (File d).
Proof.
  intros _. simpl.
  destruct (batch_workers_after sch pl pdf_dir output_dir max_workers w)
    as (tr & Htr & Hlog).
  exists tr. split; [done |].
  intros [p out] name Hl Hst.
  destruct (Hlog _ _ Hl) as (Hout & wb & wa & Hw & Hch).
  simpl in Hout, Hst. subst out.
  exists wb, wa. split; [done |].
  destruct (process_single_pdf_Some_inv _ _ _ _ _ _ Hw)
    as (_ & Hm & Hfiles & _).
  intros q Hq. destruct (Hfiles q Hq) as [d Hd]. exists d.
  split; [done |].
  destruct (Hch q) as [E | [N _]].
  - intros p' Hp' Hne. eapply footprint_disjoint; [| done | done].
    intros E. by apply (Hst p' Hp' Hne).
  - simpl in E. by rewrite E.
  - by rewrite Hd in N.
Qed.

Lemma batch_keeps_skipped_outputs_witness :
  let w1 := snd (batch fifo demo_pipeline ["in"] ["out"] 2 demo_world) in
  fs (snd (batch fifo demo_pipeline ["in"] ["out"] 2 w1))
    !! ["out"; "markdowns"; "a.md"] = Some (File "# md").
Proof.
  intros w1.
  assert (ledger w1 = Array ["a.pdf"]) as Hl by (vm_compute; reflexivity).
  assert (glob_paths (fs (snd (os_makedirs ["out"] w1))) ["in"] "*.pdf"
          = [["in"; "b.pdf"]; ["in"; "a.pdf"]]) as Hg
    by (vm_compute; reflexivity).
  apply (batch_keeps_skipped_outputs fifo demo_pipeline ["in"] ["out"] 2 w1
           "a" ["out"; "markdowns"; "a.md"] "# md").
  - discriminate.
  - intros p Hp Hn. rewrite Hg in Hp. rewrite Hl in Hn. simpl in Hn.
    apply elem_of_cons in Hp as [-> | Hp].
    { split; [intros [H | H]; vm_compute in H; discriminate H |].
      by vm_compute. }
    apply list_elem_of_singleton in Hp as ->.
    exfalso. apply Hn. vm_compute. set_solver.
  - unfold output_files. simpl. rewrite !elem_of_cons. tauto.
  - vm_compute. reflexivity.
Defined.

Lemma batch_outputs_intact_witness :
  let w' := snd (batch fifo demo_pipeline ["in"] ["out"] 2 two_pdfs) in
  exists tr,
    trace w' = trace two_pdfs ++ tr
    /\ forall t name,
         (t, Some name) ∈ pool_log tr ->
         (forall p,
            p ∈ glob_paths (fs (snd (os_makedirs ["out"] two_pdfs)))
                  ["in"] "*.pdf" ->
            p ≠ fst t -> path_stem p ≠ path_stem (fst t)) ->
         exists wb wa,
           process_single_pdf demo_pipeline t wb = (Ok (Some name), wa)
           /\ forall q,
                q ∈ output_files ["out"] (path_stem (fst t)) ->
                exists d, fs wa !! q = Some (File d)
                          /\ fs w' !! q = Some (File d).
Proof.
  apply (batch_outputs_intact fifo demo_pipeline ["in"] ["out"] 2 two_pdfs).
  intros p Hp.
  replace (glob_paths (fs (snd (os_makedirs ["out"] two_pdfs)))
             ["in"] "*.pdf")
    with [["in"; "b.pdf"]; ["in"; "a.pdf"]] in Hp
    by (vm_compute; reflexivity).
  apply elem_of_cons in Hp as [-> | Hp];
    [intros [H | H]; vm_compute in H; discriminate H |].
  apply list_elem_of_singleton in Hp as ->.
  intros [H | H]; vm_compute in H; discriminate H.
Defined.
